(** * zenithkernel: the chunk-proving CLI ([src/cli/prove_chunk_entropy.py])

    A shallow embedding of [chunk_to_density] and of the validation and
    exit-code logic of [main], with the properties of the density encoder
    and of the command-line boundary.

    Numbers.  The source stores the matrix as [np.float64].  Every value
    written by the fill loop is a whole number in 0..255 and the trace of
    the filled matrix is a sum of at most [size] of them, so both are held
    exactly by binary64 numbers for every chunk the command line admits,
    and the test of line 30 decides as it does on the exact values.  The
    encoder is embedded over the rationals [Q], with the literals [1e-10]
    and [1e-6] as 1/10^10 and 1/10^6: what it returns is the real-number
    result of the source's arithmetic.  Two statements tie it to binary64:
    line 16 evaluated on primitive floats gives [np.ceil_sqrt] for every
    length up to the size cap ([size_binary64]), and entries that are off
    by a relative error, as rounded quotients are, move the trace by no
    more than that error ([trace_within]).

    Collaborators.  [base64.b64decode], the [qzkp] package and [json.dumps]
    are not part of the source tree: [main] takes them as parameters.  The
    decoder of Python's standard library, as line 48 calls it, is given in
    [base64] for the statements that depend on what it accepts.

    The key tools of [vendors/zenith/python-tools] and the prover wrapper
    [src/cli/qzkp-wrapper.py] are embedded in [tools], on a working
    directory of files and the two output streams. *)

From Stdlib Require Import ZArith QArith Qabs Lia Lqa List Strings.Byte Ascii String.
From Stdlib Require Import Floats Uint63.
From stdpp Require Import base list strings gmap.

Local Open Scope Q_scope.

(** ** The numpy operations the encoder uses *)

Module np.

(** A two-dimensional [float64] array, row-major. *)
Abbreviation ndarray := (list (list Q)).

(** [np.zeros((rows, cols))]. *)
Definition zeros (rows cols : nat) : ndarray :=
  replicate rows (replicate cols 0).

(** [np.eye(n)]: ones on the diagonal, zeros elsewhere. *)
Definition eye (n : nat) : ndarray :=
  (λ r, (λ c, if Nat.eqb r c then 1 else 0) <$> seq 0 n) <$> seq 0 n.

(** [m * s] for a scalar [s]. *)
Definition scale (m : ndarray) (s : Q) : ndarray :=
  fmap (M := list) (fmap (M := list) (λ x, x * s)) m.

(** [m / s] for a scalar [s]. *)
Definition divide (m : ndarray) (s : Q) : ndarray :=
  fmap (M := list) (fmap (M := list) (λ x, x / s)) m.

(** [m + m'], entry by entry (the shapes agree at every use). *)
Definition add (m m' : ndarray) : ndarray :=
  zip_with (zip_with Qplus) m m'.

(** [m[r, c]] as an optional value: [None] outside the array. *)
Definition item (m : ndarray) (r c : nat) : option Q :=
  m !! r ≫= λ row, row !! c.

(** [m[r, c]] read as a number; 0 stands for a missing entry. *)
Definition get (m : ndarray) (r c : nat) : Q :=
  default 0 (item m r c).

(** [m[r, c] = v], in range. *)
Definition set (m : ndarray) (r c : nat) (v : Q) : ndarray :=
  alter (λ row, <[c := v]> row) r m.

(** The diagonal [m[0,0], m[1,1], ...] of a square array. *)
Definition diagonal (m : ndarray) : list Q :=
  (λ k, get m k k) <$> seq 0 (length m).

(** Sum of a one-dimensional array. *)
Definition sum (l : list Q) : Q := foldr Qplus 0 l.

(** [np.trace(m)]. *)
Definition trace (m : ndarray) : Q := sum (diagonal m).

(** [m.flatten()], row-major. *)
Definition flatten (m : ndarray) : list Q := concat m.

(** [int(np.ceil(np.sqrt(n)))] on a length [n], as the whole number it
    stands for: the least [s] with [n <= s * s].  ([binary64.size] below is
    the same line on floats.) *)
Definition ceil_sqrt (n : nat) : nat := Nat.sqrt_up n.

End np.

(** ** The encoder *)

Abbreviation bytes := (list byte).

(** [float(byte_array[i])], with [byte_array] of dtype [uint8]. *)
Definition byte_value (b : byte) : Q := inject_Z (Z.of_N (Byte.to_N b)).

(** The threshold of line 30 and the perturbation of line 32. *)
Definition trace_threshold : Q := 1 # 10000000000.
Definition epsilon : Q := 1 # 1000000.

(** Lines 23-26: the loop [for i in range(len(byte_array))], started at index
    [i] on the bytes that remain. *)
Fixpoint fill_loop (size : nat) (rest : bytes) (i : nat) (matrix : np.ndarray)
  : np.ndarray :=
  match rest with
  | [] => matrix
  | b :: rest' =>
      let row := (i / size)%nat in
      let col := (i mod size)%nat in
      let matrix' :=
        if (row <? size)%nat && (col <? size)%nat
        then np.set matrix row col (byte_value b)
        else matrix in
      fill_loop size rest' (S i) matrix'
  end.

(** Lines 15-26: the matrix before normalization. *)
Definition fill_matrix (chunk_bytes : bytes) : np.ndarray :=
  let len_bytes := length chunk_bytes in
  let size := np.ceil_sqrt len_bytes in
  let matrix := np.zeros size size in
  fill_loop size chunk_bytes 0 matrix.

(** Line 30: the test [norm < 1e-10] on the trace of the filled matrix. *)
Definition needs_perturbation (chunk_bytes : bytes) : bool :=
  if Qlt_le_dec (np.trace (fill_matrix chunk_bytes)) trace_threshold
  then true else false.

(** Lines 29-33: the matrix and the divisor [norm] that reach line 35. *)
Definition stabilized (chunk_bytes : bytes) : np.ndarray * Q :=
  let size := np.ceil_sqrt (length chunk_bytes) in
  let matrix := fill_matrix chunk_bytes in
  let norm := np.trace matrix in
  if needs_perturbation chunk_bytes then
    let matrix := np.add matrix (np.scale (np.eye size) epsilon) in
    let norm := np.trace matrix in
    (matrix, norm)
  else (matrix, norm).

(** The divisor of line 35. *)
Definition divisor (chunk_bytes : bytes) : Q := snd (stabilized chunk_bytes).

(** Lines 9-35. *)
Definition chunk_to_density (chunk_bytes : bytes) : np.ndarray :=
  let '(matrix, norm) := stabilized chunk_bytes in
  np.divide matrix norm.

(** A [size] by [size] array. *)
Definition square (size : nat) (m : np.ndarray) : Prop :=
  length m = size ∧ Forall (λ row : list Q, length row = size) m.

(** The byte that lands on diagonal position [(k, k)], if the chunk
    reaches that far: the one at index [k * size + k = k * (size + 1)]. *)
Definition diagonal_byte (chunk : bytes) (k : nat) : option byte :=
  chunk !! (k * np.ceil_sqrt (length chunk) + k)%nat.

(** The relative tolerance of the trace invariant, 1e-9. *)
Definition trace_tolerance : Q := 1 # 1000000000.

(** The chunk of the end-to-end scenario: 16 bytes of value 0x01. *)
Definition sixteen_ones : bytes := replicate 16 x01.

(** [E] has the shape of [M], and every entry of [E] is within relative
    error [delta] of the entry of [M] at its place: what a rounding of the
    entries of [M] gives. *)
Definition within (delta : Q) (E M : np.ndarray) : Prop :=
  Forall2 (Forall2 (λ e m : Q, Qabs (e - m) <= delta * Qabs m)) E M.

(** ** Line 16 in binary64

    [size = int(np.ceil(np.sqrt(len_bytes)))] on primitive floats, to
    compare with [np.ceil_sqrt] on the lengths the command line admits. *)

Module binary64.

Definition two52 : float := 4503599627370496%float.

(** [np.ceil] on [0 <= x < 2^51]: [x + 2^52 - 2^52] is [x] rounded to a
    whole number, which is one too low when it is below [x]. *)
Definition ceil (x : float) : float :=
  let t := PrimFloat.sub (PrimFloat.add x two52) two52 in
  if PrimFloat.ltb t x then PrimFloat.add t 1%float else t.

(** [int(x)] for a whole number [x >= 0]. *)
Definition to_Z (x : float) : Z :=
  match Prim2SF x with
  | S754_finite false m e => Z.shiftl (Z.pos m) e
  | _ => 0%Z
  end.

(** The conversion of a length to [float64], exact below 2^53. *)
Definition of_Z (n : Z) : float := PrimFloat.of_uint63 (Uint63.of_Z n).

(** [np.ceil(np.sqrt(len_bytes))]. *)
Definition ceil_sqrt (n : Z) : float := ceil (PrimFloat.sqrt (of_Z n)).

(** Line 16. *)
Definition size (n : Z) : Z := to_Z (ceil_sqrt n).

(** [ceil_sqrt] is [kf] on the [len] lengths from [lo] on. *)
Fixpoint check_run (kf : float) (lo : Z) (len : nat) : bool :=
  match len with
  | O => true
  | S len' =>
      PrimFloat.Leibniz.eqb (ceil_sqrt lo) kf && check_run kf (Z.succ lo) len'
  end.

(** [size] is [k] on the lengths above [(k - 1)^2] up to [k^2]. *)
Definition check_root (k : Z) : bool :=
  let kf := of_Z k in
  (to_Z kf =? k)%Z
  && check_run kf ((k - 1) * (k - 1) + 1) (Z.to_nat (2 * k - 1)).

Fixpoint check_roots (k : Z) (count : nat) : bool :=
  match count with
  | O => true
  | S count' => check_root k && check_roots (Z.succ k) count'
  end.

End binary64.

(** ** The encoder on a store of arrays

    [chunk_to_density] allocates its arrays and updates [matrix] in place
    (lines 26 and 32).  Here the arrays live in a store, a call starts from
    whatever the store holds, and its result is the array at the address it
    returns. *)

Module inplace.

(** The array objects, by address. *)
Abbreviation store := (list np.ndarray).
Abbreviation address := nat.

(** A new array object. *)
Definition alloc (m : np.ndarray) (h : store) : address * store :=
  (length h, h ++ [m]).

(** The array at an address (the empty array where there is none). *)
Definition load (a : address) (h : store) : np.ndarray :=
  default [] (h !! a).

(** An in-place update of the array at an address. *)
Definition update (a : address) (f : np.ndarray → np.ndarray) (h : store)
  : store :=
  alter f a h.

(** Lines 23-26 on the array at [matrix]. *)
Fixpoint fill_loop (size : nat) (rest : bytes) (i : nat) (matrix : address)
    (h : store) : store :=
  match rest with
  | [] => h
  | b :: rest' =>
      let row := (i / size)%nat in
      let col := (i mod size)%nat in
      let h' :=
        if (row <? size)%nat && (col <? size)%nat
        then update matrix (λ m, np.set m row col (byte_value b)) h
        else h in
      fill_loop size rest' (S i) matrix h'
  end.

(** Lines 9-35: the address of the returned array and the store after the
    call. *)
Definition chunk_to_density (chunk_bytes : bytes) (h : store)
  : address * store :=
  let len_bytes := length chunk_bytes in
  let size := np.ceil_sqrt len_bytes in
  let '(matrix, h) := alloc (np.zeros size size) h in
  let h := fill_loop size chunk_bytes 0 matrix h in
  let norm := np.trace (load matrix h) in
  let '(norm, h) :=
    if Qlt_le_dec norm trace_threshold then
      let '(eye, h) := alloc (np.eye size) h in
      let '(delta, h) := alloc (np.scale (load eye h) epsilon) h in
      let h := update matrix (λ m, np.add m (load delta h)) h in
      (np.trace (load matrix h), h)
    else (norm, h) in
  alloc (np.divide (load matrix h) norm) h.

End inplace.

(** ** The command line

    [main] runs in a small monad for the Python effects it uses: a
    computation ends normally, by an [Exception], or by [SystemExit];
    [except Exception] handles the second and lets the third through
    ([SystemExit] derives from [BaseException]).  The log records, in
    order, what is printed and which collaborators are called. *)

Module cli.

Inductive event : Type :=
| Stderr (text : string)
| Stdout (text : string)
| Called_chunk_to_density (chunk_bytes : bytes)
| Called_QuantumZKP (dimensions : nat)
| Called_prove_vector_knowledge (vector : list Q) (chunk_id : string)
| Called_calculate_entropy (density : np.ndarray).

(** An [Exception], by its message ([str(e)]). *)
Abbreviation exn := string.

Inductive completion (A : Type) : Type :=
| Normal (a : A)
| Raised (e : exn)
| SystemExit (code : Z).
Arguments Normal {A} a.
Arguments Raised {A} e.
Arguments SystemExit {A} code.

Definition py (A : Type) : Type := list event → completion A * list event.

#[export] Instance py_ret : MRet py := λ A a log, (Normal a, log).

#[export] Instance py_bind : MBind py := λ A B k m log,
  match m log with
  | (Normal a, log') => k a log'
  | (Raised e, log') => (Raised e, log')
  | (SystemExit code, log') => (SystemExit code, log')
  end.

(** [try: body except Exception as e: handler e]. *)
Definition try_except {A} (body : py A) (handler : exn → py A) : py A :=
  λ log,
    match body log with
    | (Raised e, log') => handler e log'
    | done => done
    end.

Definition emit (ev : event) : py unit := λ log, (Normal tt, log ++ [ev]).

(** [sys.exit(code)]. *)
Definition sys_exit {A} (code : Z) : py A := λ log, (SystemExit code, log).

(** A call that returns or raises an [Exception]. *)
Definition returns {A} (r : exn + A) : py A :=
  λ log, (match r with inl e => Raised e | inr a => Normal a end, log).

(** The code of the process that ran the computation: the argument of
    [sys.exit], 0 at a normal end, 1 at an [Exception] nobody handles. *)
Definition exit_code {A} (r : completion A * list event) : Z :=
  match fst r with
  | Normal _ => 0
  | Raised _ => 1
  | SystemExit code => code
  end.

Definition events {A} (r : completion A * list event) : list event := snd r.

(** What [main] imports and the source tree does not define:
    [base64.b64decode], the [qzkp] package and [json.dumps] on the result
    (with [float(entropy)] and [commitment.hex()]). *)
Class Collaborators : Type := {
  zkp : Type;
  commitment : Type;
  proof : Type;
  entropy_value : Type;
  b64decode : string → exn + bytes;
  QuantumZKP : nat → exn + zkp;
  prove_vector_knowledge : zkp → list Q → string → exn + (commitment * proof);
  calculate_entropy : np.ndarray → exn + entropy_value;
  dumps_result : string → entropy_value → commitment → proof → exn + string
}.

(** The size cap of line 54. *)
Definition size_cap : Z := 10000000.

Definition usage : string :=
  "Usage: prove_chunk_entropy.py <chunk_base64> <chunk_id>".

(** Lines 59-80: the body of the outer [try] after validation.  The
    entropy task created at line 62 runs once [main] is suspended at an
    [await], at line 70 at the latest; it is entered here at line 70.  It
    shares nothing with the proof engine, and an exception it raises
    surfaces at line 70, so the completion of [main] is the same whenever the
    task runs. *)
Definition process `{Collaborators} (chunk_bytes : bytes) (chunk_id : string)
  : py unit :=
  density ← (emit (Called_chunk_to_density chunk_bytes);;
             mret (chunk_to_density chunk_bytes));
  let vector := np.flatten density in
  z ← (emit (Called_QuantumZKP (length vector));;
       returns (QuantumZKP (length vector)));
  cp ← (emit (Called_prove_vector_knowledge vector chunk_id);;
        returns (prove_vector_knowledge z vector chunk_id));
  entropy ← (emit (Called_calculate_entropy density);;
             returns (calculate_entropy density));
  text ← returns (dumps_result chunk_id entropy (fst cp) (snd cp));
  emit (Stdout text).

(** Lines 45-84: the outer [try] and its handler. *)
Definition guarded `{Collaborators} (chunk_b64 chunk_id : string) : py unit :=
  try_except
    (chunk_bytes ←
       try_except (returns (b64decode chunk_b64))
         (λ _, emit (Stderr "Error: Invalid base64 encoding in chunk data");;
               sys_exit 3);
     (if (size_cap <? Z.of_nat (length chunk_bytes))%Z
      then emit (Stderr "Error: Chunk too large for processing");; sys_exit 4
      else mret tt);;
     process chunk_bytes chunk_id)
    (λ e, emit (Stderr ("Error: " ++ e));; sys_exit 2).

(** Lines 37-84, on [sys.argv]. *)
Definition main `{Collaborators} (argv : list string) : py unit :=
  (if negb (length argv =? 3)%nat
   then emit (Stderr usage);; sys_exit 1
   else mret tt);;
  let chunk_b64 := nth 1 argv EmptyString in
  let chunk_id := nth 2 argv EmptyString in
  guarded chunk_b64 chunk_id.

(** [asyncio.run(main())] from an empty log. *)
Definition run `{Collaborators} (argv : list string)
  : completion unit * list event :=
  main argv [].

(** The first collaborator of lines 59-80 that raises, if one does. *)
Definition internal_error `{Collaborators} (chunk_bytes : bytes)
    (chunk_id : string)
  : option exn :=
  let density := chunk_to_density chunk_bytes in
  let vector := np.flatten density in
  match QuantumZKP (length vector) with
  | inl e => Some e
  | inr z =>
      match prove_vector_knowledge z vector chunk_id with
      | inl e => Some e
      | inr cp =>
          match calculate_entropy density with
          | inl e => Some e
          | inr entropy =>
              match dumps_result chunk_id entropy (fst cp) (snd cp) with
              | inl e => Some e
              | inr _ => None
              end
          end
      end
  end.

(** The events that are matrix work, entropy estimation or proof
    generation. *)
Definition is_work (ev : event) : bool :=
  match ev with
  | Stderr _ | Stdout _ => false
  | _ => true
  end.

End cli.

(** ** Collaborators to run [main] on concrete arguments *)

Module sample.

(** The value of a character of the standard base64 alphabet. *)
Definition b64_value (c : ascii) : option N :=
  let n := N_of_ascii c in
  if (65 <=? n)%N && (n <=? 90)%N then Some (n - 65)%N
  else if (97 <=? n)%N && (n <=? 122)%N then Some (n - 71)%N
  else if (48 <=? n)%N && (n <=? 57)%N then Some (n + 4)%N
  else if (n =? 43)%N then Some 62%N
  else if (n =? 47)%N then Some 63%N
  else None.

Definition byte_of (n : N) : byte := default x00 (Byte.of_N (n mod 256)%N).

Definition is_pad (c : ascii) : bool := Ascii.eqb c "="%char.

(** A decoder for padded base64 over the standard alphabet: four characters
    give three bytes, and a last group may end in one or two [=].  Anything
    else is an error.  (Python's decoder accepts these strings with the
    same result; it also skips characters outside the alphabet.) *)
Fixpoint b64decode (s : string) : cli.exn + bytes :=
  match s with
  | EmptyString => inr []
  | String a (String b (String c (String d rest))) =>
      match b64_value a, b64_value b with
      | Some x, Some y =>
          let b0 := byte_of (x * 4 + y / 16) in
          if is_pad c && is_pad d then
            match rest with
            | EmptyString => inr [b0]
            | _ => inl "Excess data after padding"%string
            end
          else
            match b64_value c with
            | Some z =>
                let b1 := byte_of (y mod 16 * 16 + z / 4) in
                if is_pad d then
                  match rest with
                  | EmptyString => inr [b0; b1]
                  | _ => inl "Excess data after padding"%string
                  end
                else
                  match b64_value d with
                  | Some w =>
                      let b2 := byte_of (z mod 4 * 64 + w) in
                      match b64decode rest with
                      | inr tail => inr (b0 :: b1 :: b2 :: tail)
                      | inl e => inl e
                      end
                  | None => inl "Invalid character"%string
                  end
            | None => inl "Invalid character"%string
            end
      | _, _ => inl "Invalid character"%string
      end
  | _ => inl "Incorrect padding"%string
  end.

(** A proof engine and an entropy tool that always succeed, with fixed
    answers: a stand-in for the [qzkp] package. *)
Definition succeeding : cli.Collaborators := {|
  cli.zkp := nat;
  cli.commitment := bytes;
  cli.proof := string;
  cli.entropy_value := Q;
  cli.b64decode := b64decode;
  cli.QuantumZKP := λ dimensions, inr dimensions;
  cli.prove_vector_knowledge := λ _ _ chunk_id, inr ([], chunk_id);
  cli.calculate_entropy := λ _, inr 0;
  cli.dumps_result := λ chunk_id _ _ _, inr chunk_id
|}.

(** The same with a proof engine that raises. *)
Definition failing : cli.Collaborators := {|
  cli.zkp := nat;
  cli.commitment := bytes;
  cli.proof := string;
  cli.entropy_value := Q;
  cli.b64decode := b64decode;
  cli.QuantumZKP := λ dimensions, inr dimensions;
  cli.prove_vector_knowledge := λ _ _ _, inl "proof generation failed"%string;
  cli.calculate_entropy := λ _, inr 0;
  cli.dumps_result := λ chunk_id _ _ _, inr chunk_id
|}.

(** [n] groups [AAAA] (three zero bytes each) and a last group [AAA=] (two
    zero bytes). *)
Definition zeros_b64 (n : nat) : string :=
  Nat.iter n (String.append "AAAA") "AAA="%string.

(** The base64 text of 10,000,001 zero bytes. *)
Definition oversized_b64 : string := zeros_b64 (Z.to_nat 3333333).

End sample.

(** ** The decoder of the standard library

    Line 48 calls [base64.b64decode(chunk_b64)] with its default
    [validate=False]: the text is encoded as ASCII and handed to
    [binascii.a2b_base64] in its lenient mode, which skips every character
    outside the alphabet and stops at a complete padding. *)

Module base64.

(** A character of the standard alphabet. *)
Definition is_alphabet (c : ascii) : bool :=
  match sample.b64_value c with Some _ => true | None => false end.

(** Valid base64 (RFC 4648, section 4): groups of four characters of the
    alphabet, where the last group may end in one or two [=]; what
    [validate=True] would require. *)
Fixpoint valid (s : string) : bool :=
  match s with
  | EmptyString => true
  | String a (String b (String c (String d rest))) =>
      is_alphabet a && is_alphabet b &&
      (if sample.is_pad c then
         sample.is_pad d && match rest with EmptyString => true | _ => false end
       else
         is_alphabet c &&
         (if sample.is_pad d then
            match rest with EmptyString => true | _ => false end
          else is_alphabet d && valid rest))
  | _ => false
  end.

(** [s.encode('ascii')] succeeds: every character is below 128. *)
Fixpoint all_ascii (s : string) : bool :=
  match s with
  | EmptyString => true
  | String c rest => (N_of_ascii c <? 128)%N && all_ascii rest
  end.

(** The loop of [binascii.a2b_base64] with [strict_mode] off: [quad_pos]
    counts the characters of the current group, [leftchar] holds its bits
    not yet written, [pads] the [=] seen in a row once two characters of
    the group were read.  A [=] that completes the group ends the decoding,
    whatever follows; any other [=] and every character outside the alphabet
    is passed over.  An unfinished group at the end of the text is the only
    error.  (The messages, which line 49 discards, are abbreviated.) *)
Fixpoint a2b_loop (s : string) (quad_pos leftchar pads : N) (bin_data : bytes)
  : cli.exn + bytes :=
  match s with
  | EmptyString =>
      if (quad_pos =? 0)%N then inr bin_data
      else if (quad_pos =? 1)%N then
        inl "Invalid base64-encoded string"%string
      else inl "Incorrect padding"%string
  | String this_ch rest =>
      if sample.is_pad this_ch then
        if (2 <=? quad_pos)%N then
          if (4 <=? quad_pos + (pads + 1))%N then inr bin_data
          else a2b_loop rest quad_pos leftchar (pads + 1)%N bin_data
        else a2b_loop rest quad_pos leftchar pads bin_data
      else
        match sample.b64_value this_ch with
        | None => a2b_loop rest quad_pos leftchar pads bin_data
        | Some v =>
            if (quad_pos =? 0)%N then a2b_loop rest 1%N v 0%N bin_data
            else if (quad_pos =? 1)%N then
              a2b_loop rest 2%N (N.land v 15) 0%N
                (bin_data ++
                 [sample.byte_of (N.lor (N.shiftl leftchar 2) (N.shiftr v 4))])
            else if (quad_pos =? 2)%N then
              a2b_loop rest 3%N (N.land v 3) 0%N
                (bin_data ++
                 [sample.byte_of (N.lor (N.shiftl leftchar 4) (N.shiftr v 2))])
            else
              a2b_loop rest 0%N 0%N 0%N
                (bin_data ++ [sample.byte_of (N.lor (N.shiftl leftchar 6) v)])
        end
  end.

(** Whether the text holds a [=], and how many characters of the alphabet
    it holds. *)
Fixpoint has_pad (s : string) : bool :=
  match s with
  | EmptyString => false
  | String c rest => sample.is_pad c || has_pad rest
  end.

Fixpoint count_alphabet (s : string) : nat :=
  match s with
  | EmptyString => 0%nat
  | String c rest =>
      ((if is_alphabet c then 1 else 0) + count_alphabet rest)%nat
  end.

(** [base64.b64decode(s)] on a [str]. *)
Definition b64decode (s : string) : cli.exn + bytes :=
  if all_ascii s then a2b_loop s 0%N 0%N 0%N []
  else inl "string argument should contain only ASCII characters"%string.

(** The standard library's decoder with a proof engine and an entropy tool
    that always succeed. *)
Definition succeeding : cli.Collaborators := {|
  cli.zkp := nat;
  cli.commitment := bytes;
  cli.proof := string;
  cli.entropy_value := Q;
  cli.b64decode := b64decode;
  cli.QuantumZKP := λ dimensions, inr dimensions;
  cli.prove_vector_knowledge := λ _ _ chunk_id, inr ([], chunk_id);
  cli.calculate_entropy := λ _, inr 0;
  cli.dumps_result := λ chunk_id _ _ _, inr chunk_id
|}.

End base64.

(** ** The key tools and the prover wrapper

    [vendors/zenith/python-tools/*.py] and [src/cli/qzkp-wrapper.py] are
    scripts on [sys.argv], the files of the working directory and the two
    output streams.  The schemes they import ([kyber_py], [dilithium_py],
    [qzkp]) and the conversions of [str] and [bytes] are parameters. *)

#[global] Instance byte_eq_decision : EqDecision byte := Byte.byte_eq_dec.

Module tools.

Record world : Type := World {
  files : gmap string bytes;
  stdout : list string;
  stderr : list string
}.

Definition io (A : Type) : Type := world → cli.completion A * world.

#[export] Instance io_ret : MRet io := λ A a w, (cli.Normal a, w).

#[export] Instance io_bind : MBind io := λ A B k m w,
  match m w with
  | (cli.Normal a, w') => k a w'
  | (cli.Raised e, w') => (cli.Raised e, w')
  | (cli.SystemExit code, w') => (cli.SystemExit code, w')
  end.

(** [print(line)] and [print(line, file=sys.stderr)]. *)
Definition print (line : string) : io unit :=
  λ w, (cli.Normal tt, World (files w) (stdout w ++ [line]) (stderr w)).

Definition print_stderr (line : string) : io unit :=
  λ w, (cli.Normal tt, World (files w) (stdout w) (stderr w ++ [line])).

Definition sys_exit {A} (code : Z) : io A := λ w, (cli.SystemExit code, w).

Definition raise {A} (e : cli.exn) : io A := λ w, (cli.Raised e, w).

Definition returns {A} (r : cli.exn + A) : io A :=
  match r with inl e => raise e | inr a => mret a end.

(** [with open(name, "rb") as f: f.read()]: a missing file raises. *)
Definition read_file (name : string) : io bytes :=
  λ w,
    match files w !! name with
    | Some data => (cli.Normal data, w)
    | None => (cli.Raised "FileNotFoundError", w)
    end.

(** What [with open(name, "wb") as f: f.write(data)] meets on the disk:
    the write completes; or it raises, either at [open], which leaves the
    file as it was ([left = None]), or at [f.write] or at the closing flush,
    after [open] has created or emptied the file, which leaves it with some
    content [partial] ([left = Some partial]). *)
Inductive write_result : Type :=
  | Written
  | Failed (e : cli.exn) (left : option bytes).

Definition is_written (r : write_result) : bool :=
  match r with Written => true | Failed _ _ => false end.

(** What a file holds after a write of [data] with result [r], when it held
    [old] before. *)
Definition content_after (r : write_result) (data : bytes) (old : option bytes)
  : option bytes :=
  match r with
  | Written => Some data
  | Failed _ None => old
  | Failed _ (Some partial) => Some partial
  end.

(** [with open(name, "wb") as f: f.write(data)] on a disk that answers each
    write with [disk name data]. *)
Definition write_file (disk : string → bytes → write_result)
    (name : string) (data : bytes) : io unit :=
  λ w,
    match disk name data with
    | Written =>
        (cli.Normal tt, World (<[name := data]> (files w)) (stdout w) (stderr w))
    | Failed e None => (cli.Raised e, w)
    | Failed e (Some partial) =>
        (cli.Raised e, World (<[name := partial]> (files w)) (stdout w) (stderr w))
    end.

(** A disk on which every write completes. *)
Definition writable : string → bytes → write_result := λ _ _, Written.

(** The exit code of the interpreter that ran the script: the argument of
    [sys.exit], 0 at the end of the script, 1 at an exception. *)
Definition exit_code {A} (r : cli.completion A * world) : Z :=
  match fst r with
  | cli.Normal _ => 0
  | cli.Raised _ => 1
  | cli.SystemExit code => code
  end.

Class Crypto : Type := {
  (** [str.encode()] *)
  encode : string → cli.exn + bytes;
  (** [bytes.hex()] and [bytes.fromhex] *)
  hex : bytes → string;
  fromhex : string → cli.exn + bytes;
  (** [Kyber(DEFAULT_PARAMETERS['kyber_768']).keygen()], public key first *)
  kyber_keygen : cli.exn + (bytes * bytes);
  (** [ML_DSA_44.keygen()], public key first *)
  ml_dsa_keygen : cli.exn + (bytes * bytes);
  (** [ML_KEM_768.encaps(pk)]: shared secret and ciphertext *)
  ml_kem_encaps : bytes → cli.exn + (bytes * bytes);
  (** [ML_KEM_768.decaps(sk, ciphertext)] *)
  ml_kem_decaps : bytes → bytes → cli.exn + bytes;
  (** [ML_DSA_44.sign(sk, msg)] *)
  ml_dsa_sign : bytes → bytes → cli.exn + bytes;
  (** [ML_DSA_44.verify(pk, msg, sig)] *)
  ml_dsa_verify : bytes → bytes → bytes → cli.exn + bool
}.

(** [generate_keys.py], on a disk that answers each write with
    [disk name data]: both key pairs are generated before the first file is
    opened, and the four writes follow one another with nothing to undo an
    earlier one. *)
Definition generate_keys_on `{Crypto} (disk : string → bytes → write_result)
  : io unit :=
  print "";;
  kyber ← returns kyber_keygen;
  dilithium ← returns ml_dsa_keygen;
  write_file disk "kyber_public.key" (fst kyber);;
  write_file disk "kyber_private.key" (snd kyber);;
  write_file disk "dilithium_public.key" (fst dilithium);;
  write_file disk "dilithium_private.key" (snd dilithium).

(** [generate_keys.py] in a directory that can be written. *)
Definition generate_keys `{Crypto} : io unit := generate_keys_on writable.

(** [kyber_tools.py]. *)
Definition kyber_tools `{Crypto} : io unit :=
  public_key ← read_file "kyber_public.key";
  private_key ← read_file "kyber_private.key";
  enc ← returns (ml_kem_encaps public_key);
  shared_secret_dec ← returns (ml_kem_decaps private_key (snd enc));
  (if bool_decide (fst enc = shared_secret_dec)
   then mret tt
   else raise "AssertionError");;
  print "Encryption and decryption successful.".

(** [sign.py]. *)
Definition sign `{Crypto} (argv : list string) : io unit :=
  (if negb (length argv =? 3)%nat
   then print_stderr "Usage: sign.py <message> <private_key_file>";;
        sys_exit 1
   else mret tt);;
  msg ← returns (encode (nth 1 argv EmptyString));
  sk ← read_file (nth 2 argv EmptyString);
  sig ← returns (ml_dsa_sign sk msg);
  print (hex sig).

(** [verify.py]. *)
Definition verify `{Crypto} (argv : list string) : io unit :=
  (if negb (length argv =? 4)%nat
   then print_stderr
          "Usage: verify.py <message> <signature_hex> <public_key_file>";;
        sys_exit 1
   else mret tt);;
  msg ← returns (encode (nth 1 argv EmptyString));
  sig ← returns (fromhex (nth 2 argv EmptyString));
  pk ← read_file (nth 3 argv EmptyString);
  ok ← returns (ml_dsa_verify pk msg sig);
  if ok : bool then print "OK" else print "FAIL";; sys_exit 1.

(** What [qzkp-wrapper.py] imports: [Prover(private_key)],
    [prover.create_proof(challenge)] and [json.dumps] on the proof. *)
Class ProverLib : Type := {
  prover : Type;
  wrapper_proof : Type;
  Prover : string → cli.exn + prover;
  create_proof : prover → string → cli.exn + wrapper_proof;
  dumps : wrapper_proof → cli.exn + string
}.

(** [qzkp-wrapper.py], [main]. *)
Definition qzkp_wrapper_main `{ProverLib} (argv : list string) : io unit :=
  (if negb (length argv =? 3)%nat
   then print_stderr "Usage: qzkp-wrapper.py <challenge> <private_key>";;
        sys_exit 1
   else mret tt);;
  let challenge := nth 1 argv EmptyString in
  let private_key := nth 2 argv EmptyString in
  p ← returns (Prover private_key);
  proof ← returns (create_proof p challenge);
  text ← returns (dumps proof);
  print text.

(** The four writes of lines 16-23 of [generate_keys.py], in their order. *)
Definition planned_writes (kyber dilithium : bytes * bytes)
  : list (string * bytes) :=
  [("kyber_public.key"%string, fst kyber);
   ("kyber_private.key"%string, snd kyber);
   ("dilithium_public.key"%string, fst dilithium);
   ("dilithium_private.key"%string, snd dilithium)].

(** The four files [generate_keys.py] writes. *)
Definition key_files : list string :=
  ["kyber_public.key"; "kyber_private.key";
   "dilithium_public.key"; "dilithium_private.key"]%string.

(** A working directory with the given files and nothing printed yet. *)
Definition fresh (fs : gmap string bytes) : world := World fs [] [].

End tools.

(** ** Sample schemes to run the key tools *)

Module sample_tools.

(** The lowercase hexadecimal digit of a number below 16. *)
Definition hex_char (n : N) : ascii :=
  if (n <? 10)%N then ascii_of_N (48 + n) else ascii_of_N (87 + n).

(** The value of a hexadecimal digit, of either case. *)
Definition hex_value (c : ascii) : option N :=
  let n := N_of_ascii c in
  if (48 <=? n)%N && (n <=? 57)%N then Some (n - 48)%N
  else if (97 <=? n)%N && (n <=? 102)%N then Some (n - 87)%N
  else if (65 <=? n)%N && (n <=? 70)%N then Some (n - 55)%N
  else None.

(** Two lowercase digits per byte, as [bytes.hex()] gives. *)
Fixpoint hex (data : bytes) : string :=
  match data with
  | [] => EmptyString
  | b :: rest =>
      String (hex_char (Byte.to_N b / 16))
        (String (hex_char (Byte.to_N b mod 16)) (hex rest))
  end.

Definition is_space (c : ascii) : bool :=
  let n := N_of_ascii c in (n =? 32)%N || ((9 <=? n)%N && (n <=? 13)%N).

(** Pairs of digits, with white space allowed between the pairs, as
    [bytes.fromhex] reads them. *)
Fixpoint fromhex (s : string) : cli.exn + bytes :=
  match s with
  | EmptyString => inr []
  | String c rest =>
      if is_space c then fromhex rest
      else
        match rest with
        | String d rest' =>
            match hex_value c, hex_value d with
            | Some h, Some l =>
                match fromhex rest' with
                | inr tail => inr (sample.byte_of (h * 16 + l) :: tail)
                | inl e => inl e
                end
            | _, _ => inl "non-hexadecimal number found in fromhex() arg"%string
            end
        | EmptyString =>
            inl "non-hexadecimal number found in fromhex() arg"%string
        end
  end.

(** A key-encapsulation and a signature scheme in which the private key is
    the public key: the shared secret and the ciphertext are the key, and a
    signature is the key followed by the message. *)
Definition toy : tools.Crypto := {|
  tools.encode := λ s, inr (list_byte_of_string s);
  tools.hex := hex;
  tools.fromhex := fromhex;
  tools.kyber_keygen := inr ([x4b], [x4b]);
  tools.ml_dsa_keygen := inr ([x44], [x44]);
  tools.ml_kem_encaps := λ pk, inr (pk, pk);
  tools.ml_kem_decaps := λ sk ciphertext, inr ciphertext;
  tools.ml_dsa_sign := λ sk msg, inr (sk ++ msg);
  tools.ml_dsa_verify := λ pk msg sig, inr (bool_decide (sig = pk ++ msg))
|}.

(** A prover that answers the challenge with the key appended. *)
Definition toy_prover : tools.ProverLib := {|
  tools.prover := string;
  tools.wrapper_proof := string;
  tools.Prover := λ private_key, inr private_key;
  tools.create_proof := λ p challenge, inr (challenge ++ p)%string;
  tools.dumps := λ proof, inr proof
|}.

(** A disk that refuses to open [kyber_private.key] for writing. *)
Definition refusing (name : string) (data : bytes) : tools.write_result :=
  if String.eqb name "kyber_private.key"
  then tools.Failed "PermissionError" None
  else tools.Written.

(** A directory that holds an older Kyber key pair. *)
Definition old_keys : tools.world :=
  tools.fresh {[ "kyber_public.key"%string := [x01];
                 "kyber_private.key"%string := [x02] ]}.

End sample_tools.

(** ** Sample runs *)

Example chunk_to_density_3 :
  chunk_to_density [x02; x05; x06] = [[2 / 2; 5 / 2]; [6 / 2; 0 / 2]].
Proof. reflexivity. Qed.

Example b64decode_01x16 :
  sample.b64decode "AQEBAQEBAQEBAQEBAQEBAQ==" = inr sixteen_ones.
Proof. reflexivity. Qed.

Example b64decode_malformed :
  sample.b64decode "not-base64-$$" = inl "Invalid character"%string.
Proof. reflexivity. Qed.

(** ** Shapes and single-entry updates *)

Section ArrayFacts.

Lemma square_row size m r row :
  square size m → m !! r = Some row → length row = size.
Proof.
  intros [_ Hrows] Hr.
  apply (proj1 (Forall_lookup _ _) Hrows r row Hr).
Qed.

Lemma square_item size m r c :
  square size m → (r < size)%nat → (c < size)%nat → is_Some (np.item m r c).
Proof.
  intros Hsq Hr Hc. unfold np.item.
  destruct (lookup_lt_is_Some_2 m r) as [row Hrow]; [by rewrite (proj1 Hsq)|].
  rewrite Hrow. simpl.
  apply lookup_lt_is_Some_2. by rewrite (square_row _ _ _ _ Hsq Hrow).
Qed.

Lemma zeros_square size : square size (np.zeros size size).
Proof.
  split; [apply length_replicate|].
  apply Forall_replicate, length_replicate.
Qed.

Lemma zeros_item rows cols r c :
  (r < rows)%nat → (c < cols)%nat → np.item (np.zeros rows cols) r c = Some 0.
Proof.
  intros Hr Hc. unfold np.item, np.zeros.
  rewrite lookup_replicate_2 by done. simpl.
  by rewrite lookup_replicate_2.
Qed.

Lemma set_square size m r c v : square size m → square size (np.set m r c v).
Proof.
  intros [Hlen Hrows]. unfold np.set. split; [by rewrite length_alter|].
  apply Forall_alter; [done|].
  intros row Hrow Hl. by rewrite length_insert.
Qed.

Lemma set_item_eq size m r c v :
  square size m → (r < size)%nat → (c < size)%nat →
  np.item (np.set m r c v) r c = Some v.
Proof.
  intros Hsq Hr Hc. unfold np.item, np.set.
  rewrite list_lookup_alter_eq.
  destruct (lookup_lt_is_Some_2 m r) as [row Hrow]; [by rewrite (proj1 Hsq)|].
  rewrite Hrow. simpl. apply list_lookup_insert_eq.
  by rewrite (square_row _ _ _ _ Hsq Hrow).
Qed.

Lemma set_item_ne m r c v r' c' :
  (r, c) ≠ (r', c') → np.item (np.set m r c v) r' c' = np.item m r' c'.
Proof.
  intros Hne. unfold np.item, np.set.
  destruct (decide (r = r')) as [->|Hr].
  - rewrite list_lookup_alter_eq. destruct (m !! r') as [row|]; [|done].
    simpl. apply list_lookup_insert_ne. congruence.
  - by rewrite list_lookup_alter_ne.
Qed.

End ArrayFacts.

(** ** The fill loop *)

Section FillLoop.

Variable size : nat.

Lemma fill_loop_square rest : ∀ i m,
  square size m → square size (fill_loop size rest i m).
Proof.
  induction rest as [|b rest IH]; intros i m Hsq; simpl; [done|].
  apply IH. destruct (_ && _); [by apply set_square|done].
Qed.

(** Row and column of a linear index, and back. *)
Lemma divmod_index r c :
  (c < size)%nat →
  ((r * size + c) / size = r ∧ (r * size + c) mod size = c)%nat.
Proof.
  intros Hc. split; symmetry.
  - apply (Nat.div_unique _ _ r c); lia.
  - apply (Nat.mod_unique _ _ r c); lia.
Qed.

Lemma index_in_range i :
  (i < size * size)%nat → (i / size < size ∧ i mod size < size)%nat.
Proof.
  intros Hi. assert (size ≠ 0)%nat by lia. split.
  - apply Nat.Div0.div_lt_upper_bound; lia.
  - by apply Nat.mod_upper_bound.
Qed.

(** The loop invariant: started at index [i] on the bytes [rest], the loop
    writes byte number [j - i] of [rest] at linear position [j] and leaves
    every other entry as it found it. *)
Lemma fill_loop_item rest : ∀ i m r c,
  square size m → (r < size)%nat → (c < size)%nat →
  (i + length rest ≤ size * size)%nat →
  np.item (fill_loop size rest i m) r c =
    if decide (i ≤ r * size + c)%nat then
      match rest !! (r * size + c - i)%nat with
      | Some b => Some (byte_value b)
      | None => np.item m r c
      end
    else np.item m r c.
Proof.
  induction rest as [|b rest IH]; intros i m r c Hsq Hr Hc Hlen; simpl.
  { by destruct (decide _). }
  simpl in Hlen.
  destruct (index_in_range i) as [Hrow Hcol]; [lia|].
  apply Nat.ltb_lt in Hrow as Hrow', Hcol as Hcol'.
  rewrite Hrow', Hcol'. simpl.
  rewrite IH by (try apply set_square; try done; lia).
  pose proof (Nat.div_mod_eq i size) as Hi.
  destruct (decide (S i ≤ r * size + c)%nat) as [Hlt|Hge].
  - rewrite decide_True by lia.
    replace (r * size + c - i)%nat with (S (r * size + c - S i)) by lia.
    simpl. destruct (rest !! _); [done|].
    apply set_item_ne. intros [= <- <-]. lia.
  - destruct (decide (i ≤ r * size + c)%nat) as [Hle|Hgt].
    + assert (i = r * size + c)%nat as -> by lia.
      rewrite Nat.sub_diag. simpl.
      destruct (divmod_index r c Hc) as [-> ->].
      by apply (set_item_eq size).
    + apply set_item_ne. intros [= <- <-]. lia.
Qed.

End FillLoop.

(** [ceil_sqrt n] is the ceiling of the square root of [n]. *)
Lemma ceil_sqrt_spec n :
  (0 < n)%nat →
  (Nat.pred (np.ceil_sqrt n) * Nat.pred (np.ceil_sqrt n) < n
   ∧ n ≤ np.ceil_sqrt n * np.ceil_sqrt n)%nat.
Proof.
  intros Hn. unfold np.ceil_sqrt.
  pose proof (Nat.sqrt_up_spec n Hn) as H. simpl in H. lia.
Qed.

Lemma ceil_sqrt_upper n : (n ≤ np.ceil_sqrt n * np.ceil_sqrt n)%nat.
Proof.
  destruct n as [|n]; [done|]. apply ceil_sqrt_spec. lia.
Qed.

Lemma ceil_sqrt_pos n : (0 < n)%nat → (0 < np.ceil_sqrt n)%nat.
Proof. intros Hn. pose proof (ceil_sqrt_upper n). nia. Qed.

Lemma fill_matrix_square chunk :
  square (np.ceil_sqrt (length chunk)) (fill_matrix chunk).
Proof. apply fill_loop_square, zeros_square. Qed.

(** Every entry of the filled matrix, by linear index. *)
Lemma fill_matrix_item (chunk : bytes) r c :
  let size := np.ceil_sqrt (length chunk) in
  (r < size)%nat → (c < size)%nat →
  np.item (fill_matrix chunk) r c =
    Some (from_option byte_value 0 (chunk !! (r * size + c)%nat)).
Proof.
  intros size Hr Hc. unfold fill_matrix. fold size.
  rewrite fill_loop_item;
    [|apply zeros_square|done|done|simpl; apply ceil_sqrt_upper].
  rewrite decide_True by lia. rewrite Nat.sub_0_r.
  destruct (chunk !! _); simpl; [done|]. by apply zeros_item.
Qed.

Lemma byte_value_range b : 0 <= byte_value b <= 255.
Proof.
  unfold byte_value. pose proof (Byte.to_N_bounded b) as Hb.
  split; [apply (Qle_trans _ (inject_Z 0))|apply (Qle_trans _ (inject_Z 255))];
    try apply Qle_refl; rewrite <- Zle_Qle; lia.
Qed.

(** ** Entries of the array operations *)

Section Entries.

Lemma item_divide (m : np.ndarray) s r c :
  np.item (np.divide m s) r c = (λ x, x / s) <$> np.item m r c.
Proof.
  unfold np.item, np.divide. rewrite list_lookup_fmap.
  destruct (m !! r) as [row|]; simpl; [|done].
  by rewrite list_lookup_fmap.
Qed.

Lemma item_scale (m : np.ndarray) s r c :
  np.item (np.scale m s) r c = (λ x, x * s) <$> np.item m r c.
Proof.
  unfold np.item, np.scale. rewrite list_lookup_fmap.
  destruct (m !! r) as [row|]; simpl; [|done].
  by rewrite list_lookup_fmap.
Qed.

Lemma item_add (m m' : np.ndarray) r c :
  np.item (np.add m m') r c =
    x ← np.item m r c; y ← np.item m' r c; Some (x + y).
Proof.
  unfold np.item, np.add. rewrite lookup_zip_with.
  destruct (m !! r) as [row|]; simpl; [|done].
  destruct (m' !! r) as [row'|]; simpl.
  - rewrite lookup_zip_with. by destruct (row !! c).
  - by destruct (row !! c).
Qed.

Lemma item_eye n r c :
  (r < n)%nat → (c < n)%nat →
  np.item (np.eye n) r c = Some (if Nat.eqb r c then 1 else 0).
Proof.
  intros Hr Hc. unfold np.item, np.eye.
  rewrite list_lookup_fmap, lookup_seq_lt by done. simpl.
  by rewrite list_lookup_fmap, lookup_seq_lt.
Qed.

Lemma eye_square n : square n (np.eye n).
Proof.
  unfold np.eye. split.
  - by rewrite length_fmap, length_seq.
  - apply Forall_fmap, Forall_forall. intros r _. simpl.
    by rewrite length_fmap, length_seq.
Qed.

Lemma item_in_range size (m : np.ndarray) r c v :
  square size m → np.item m r c = Some v → (r < size ∧ c < size)%nat.
Proof.
  intros Hsq. unfold np.item.
  destruct (m !! r) as [row|] eqn:Hrow; simpl; [|done].
  intros Hv. split.
  - rewrite <- (proj1 Hsq). by eapply lookup_lt_Some.
  - rewrite <- (square_row _ _ _ _ Hsq Hrow). by eapply lookup_lt_Some.
Qed.

Lemma length_divide (m : np.ndarray) s : length (np.divide m s) = length m.
Proof. unfold np.divide. by rewrite length_fmap. Qed.

Lemma divide_square size m s : square size m → square size (np.divide m s).
Proof.
  intros [Hlen Hrows]. split; [by rewrite length_divide|].
  unfold np.divide. apply Forall_fmap. eapply Forall_impl; [exact Hrows|].
  intros row Hrow. simpl. by rewrite length_fmap.
Qed.

Lemma add_square size m m' :
  square size m → square size m' → square size (np.add m m').
Proof.
  intros [Hlen Hrows] [Hlen' Hrows']. unfold np.add. split.
  - rewrite length_zip_with. lia.
  - apply Forall_lookup. intros r row Hr.
    rewrite lookup_zip_with in Hr.
    destruct (m !! r) as [a|] eqn:Ha; simpl in Hr; [|done].
    destruct (m' !! r) as [a'|] eqn:Ha'; simpl in Hr; [|done].
    injection Hr as <-. rewrite length_zip_with.
    rewrite (proj1 (Forall_lookup _ _) Hrows r a Ha).
    rewrite (proj1 (Forall_lookup _ _) Hrows' r a' Ha'). lia.
Qed.

Lemma scale_square size m s : square size m → square size (np.scale m s).
Proof.
  intros [Hlen Hrows]. unfold np.scale. split; [by rewrite length_fmap|].
  apply Forall_fmap. eapply Forall_impl; [exact Hrows|].
  intros row Hrow. simpl. by rewrite length_fmap.
Qed.

(** A property of every entry, read through [item]. *)
Lemma Forall_entries (P : Q → Prop) (m : np.ndarray) :
  Forall (Forall P) m ↔ ∀ r c v, np.item m r c = Some v → P v.
Proof.
  split.
  - intros Hall r c v. unfold np.item.
    destruct (m !! r) as [row|] eqn:Hrow; simpl; [|done].
    intros Hv. pose proof (proj1 (Forall_lookup _ _) Hall r row Hrow) as Hr.
    exact (proj1 (Forall_lookup _ _) Hr c v Hv).
  - intros Hall. apply Forall_lookup. intros r row Hrow.
    apply Forall_lookup. intros c v Hv. apply (Hall r c v).
    unfold np.item. by rewrite Hrow.
Qed.

End Entries.

(** ** Sums and traces *)

Section Traces.

Lemma sum_cons d (l : list Q) : np.sum (d :: l) = d + np.sum l.
Proof. reflexivity. Qed.

Lemma sum_ext {A} (f g : A → Q) (l : list A) :
  (∀ k, k ∈ l → f k == g k) → np.sum (f <$> l) == np.sum (g <$> l).
Proof.
  induction l as [|a l IH]; intros Hfg; [reflexivity|].
  rewrite !fmap_cons, !sum_cons.
  rewrite (Hfg a) by apply list_elem_of_here.
  rewrite IH; [reflexivity|].
  intros k Hk. apply Hfg. by apply list_elem_of_further.
Qed.

Lemma sum_divide {A} (f : A → Q) s (l : list A) :
  np.sum ((λ k, f k / s) <$> l) == np.sum (f <$> l) / s.
Proof.
  induction l as [|a l IH].
  - unfold np.sum, Qdiv. simpl. ring.
  - rewrite !fmap_cons, !sum_cons, IH. unfold Qdiv. ring.
Qed.

Lemma sum_plus_const {A} (f : A → Q) e (l : list A) :
  np.sum ((λ k, f k + e) <$> l) ==
    np.sum (f <$> l) + inject_Z (Z.of_nat (length l)) * e.
Proof.
  induction l as [|a l IH].
  - unfold np.sum. simpl. ring.
  - rewrite !fmap_cons, !sum_cons, IH.
    cbn [length]. rewrite Nat2Z.inj_succ.
    unfold Z.succ. rewrite inject_Z_plus. ring.
Qed.

Lemma sum_nonneg (l : list Q) : Forall (λ d, 0 <= d) l → 0 <= np.sum l.
Proof.
  induction 1 as [|d l Hd _ IH]; [apply Qle_refl|].
  rewrite sum_cons. lra.
Qed.

Lemma get_divide (m : np.ndarray) s r c :
  np.get (np.divide m s) r c == np.get m r c / s.
Proof.
  unfold np.get. rewrite item_divide.
  destruct (np.item m r c); simpl; [reflexivity|]. unfold Qdiv. ring.
Qed.

(** Line 35 divides the trace along with the entries. *)
Lemma trace_divide (m : np.ndarray) s :
  np.trace (np.divide m s) == np.trace m / s.
Proof.
  unfold np.trace, np.diagonal. rewrite length_divide.
  rewrite <- sum_divide. apply sum_ext. intros k _. apply get_divide.
Qed.

End Traces.

(** ** The diagonal of the filled matrix *)

Section Diagonal.

Lemma byte_value_zero b : byte_value b == 0 ↔ b = x00.
Proof.
  unfold byte_value. split.
  - intros H. unfold Qeq in H. simpl in H.
    assert (Byte.to_N b = 0%N) as Hb by lia.
    apply (f_equal Byte.of_N) in Hb. rewrite Byte.of_to_N in Hb.
    by injection Hb.
  - by intros ->.
Qed.

Lemma byte_value_step b : byte_value b == 0 ∨ 1 <= byte_value b.
Proof.
  unfold byte_value. destruct (Byte.to_N b) as [|p]; [by left|right].
  change 1 with (inject_Z 1). rewrite <- Zle_Qle. lia.
Qed.

Lemma get_fill_matrix (chunk : bytes) r c :
  let size := np.ceil_sqrt (length chunk) in
  (r < size)%nat → (c < size)%nat →
  np.get (fill_matrix chunk) r c =
    from_option byte_value 0 (chunk !! (r * size + c)%nat).
Proof.
  intros size Hr Hc. unfold np.get.
  by rewrite (fill_matrix_item chunk r c Hr Hc).
Qed.

Lemma diagonal_fill_matrix (chunk : bytes) :
  np.diagonal (fill_matrix chunk) =
    (λ k, from_option byte_value 0 (diagonal_byte chunk k))
      <$> seq 0 (np.ceil_sqrt (length chunk)).
Proof.
  unfold np.diagonal. rewrite (proj1 (fill_matrix_square chunk)).
  apply list_fmap_ext. intros i k Hk.
  apply lookup_seq in Hk as [-> Hi]. simpl.
  by apply get_fill_matrix.
Qed.

(** Diagonal values are whole numbers, so a trace under the threshold is a
    trace of zeros. *)
Lemma small_sum_zero (l : list Q) :
  Forall (λ d, d == 0 ∨ 1 <= d) l →
  np.sum l < trace_threshold ↔ Forall (λ d, d == 0) l.
Proof.
  unfold trace_threshold. intros Hl.
  assert (0 <= np.sum l) as Hsum.
  { apply sum_nonneg. eapply Forall_impl; [exact Hl|].
    intros d [Hd|Hd]; cbv beta; lra. }
  induction Hl as [|d l Hd Hl IH].
  - split; [constructor|]. intros _. by vm_compute.
  - rewrite sum_cons in *.
    assert (0 <= np.sum l) as Hsum'.
    { apply sum_nonneg. eapply Forall_impl; [exact Hl|].
      intros e [He|He]; cbv beta; lra. }
    specialize (IH Hsum'). split.
    + intros Hlt. destruct Hd as [Hd|Hd]; [|lra].
      constructor; [done|]. apply IH. lra.
    + intros Hall. apply Forall_cons in Hall as [Hd0 Hall].
      apply IH in Hall. lra.
Qed.

Lemma diagonal_fill_steps (chunk : bytes) :
  Forall (λ d, d == 0 ∨ 1 <= d) (np.diagonal (fill_matrix chunk)).
Proof.
  rewrite diagonal_fill_matrix. apply Forall_fmap, Forall_forall.
  intros k _. simpl. destruct (diagonal_byte chunk k); simpl.
  - apply byte_value_step.
  - by left.
Qed.

Lemma needs_perturbation_trace chunk :
  needs_perturbation chunk = true ↔
  np.trace (fill_matrix chunk) < trace_threshold.
Proof.
  unfold needs_perturbation. destruct (Qlt_le_dec _ _) as [Hlt|Hge].
  - done.
  - split; [done|]. intros Hlt. lra.
Qed.

(** The test of line 30 in terms of the chunk's bytes. *)
Lemma needs_perturbation_diagonal chunk :
  needs_perturbation chunk = true ↔
  ∀ k b, diagonal_byte chunk k = Some b → b = x00.
Proof.
  rewrite needs_perturbation_trace. unfold np.trace.
  rewrite (small_sum_zero _ (diagonal_fill_steps chunk)).
  rewrite diagonal_fill_matrix, Forall_fmap, Forall_forall.
  split.
  - intros Hall k b Hb.
    assert (k < np.ceil_sqrt (length chunk))%nat as Hk.
    { apply lookup_lt_Some in Hb.
      pose proof (ceil_sqrt_upper (length chunk)). nia. }
    specialize (Hall k). simpl in Hall. rewrite Hb in Hall. simpl in Hall.
    apply byte_value_zero, Hall, elem_of_seq. lia.
  - intros Hall k _. simpl.
    destruct (diagonal_byte chunk k) as [b|] eqn:Hb; simpl; [|reflexivity].
    by rewrite (Hall k b Hb).
Qed.

(** The trace of the filled matrix is a whole number, at most 255 times
    [size]: far below 2^53, so binary64 holds it exactly. *)
Lemma trace_fill_whole chunk :
  ∃ z : Z,
    np.trace (fill_matrix chunk) == inject_Z z ∧
    (0 ≤ z ≤ 255 * Z.of_nat (np.ceil_sqrt (length chunk)))%Z.
Proof.
  unfold np.trace. rewrite diagonal_fill_matrix.
  set (size := np.ceil_sqrt (length chunk)).
  replace (Z.of_nat size) with (Z.of_nat (length (seq 0 size)))
    by by rewrite length_seq.
  induction (seq 0 size) as [|k l (z & Hz & Hb)].
  - exists 0%Z. split; [reflexivity|simpl; lia].
  - rewrite fmap_cons, sum_cons.
    assert (∃ v : Z, from_option byte_value 0 (diagonal_byte chunk k)
                     = inject_Z v ∧ (0 ≤ v ≤ 255)%Z) as (v & -> & Hv).
    { destruct (diagonal_byte chunk k) as [b|]; simpl.
      - exists (Z.of_N (Byte.to_N b)). split; [done|].
        pose proof (Byte.to_N_bounded b). lia.
      - exists 0%Z. split; [done|lia]. }
    exists (v + z)%Z. split; [by rewrite Hz, inject_Z_plus|].
    cbn [length]. lia.
Qed.

End Diagonal.

(** ** Lines 29-33: the stabilized matrix and its divisor *)

Section Stabilized.

Lemma trace_stabilized chunk :
  np.trace (fst (stabilized chunk)) = divisor chunk.
Proof. unfold divisor, stabilized. by destruct (needs_perturbation chunk). Qed.

Lemma chunk_to_density_unfold chunk :
  chunk_to_density chunk = np.divide (fst (stabilized chunk)) (divisor chunk).
Proof. unfold chunk_to_density, divisor. by destruct (stabilized chunk). Qed.

Lemma stabilized_direct chunk :
  needs_perturbation chunk = false →
  stabilized chunk = (fill_matrix chunk, np.trace (fill_matrix chunk)).
Proof. intros H. unfold stabilized. by rewrite H. Qed.

Lemma stabilized_perturbed chunk :
  needs_perturbation chunk = true →
  fst (stabilized chunk) =
    np.add (fill_matrix chunk)
      (np.scale (np.eye (np.ceil_sqrt (length chunk))) epsilon).
Proof. intros H. unfold stabilized. by rewrite H. Qed.

Lemma stabilized_square chunk :
  square (np.ceil_sqrt (length chunk)) (fst (stabilized chunk)).
Proof.
  unfold stabilized. destruct (needs_perturbation chunk); simpl.
  - apply add_square; [apply fill_matrix_square|].
    apply scale_square, eye_square.
  - apply fill_matrix_square.
Qed.

(** Adding [epsilon] times the identity raises every diagonal entry by
    [epsilon] and leaves the others. *)
Lemma item_perturbed size (m : np.ndarray) r c :
  square size m → (r < size)%nat → (c < size)%nat →
  np.item (np.add m (np.scale (np.eye size) epsilon)) r c =
    Some (np.get m r c + (if Nat.eqb r c then 1 else 0) * epsilon).
Proof.
  intros Hsq Hr Hc. rewrite item_add, item_scale, item_eye by done.
  unfold np.get. by destruct (square_item size m r c Hsq Hr Hc) as [v ->].
Qed.

Lemma trace_perturbed size (m : np.ndarray) :
  square size m →
  np.trace (np.add m (np.scale (np.eye size) epsilon)) ==
    np.trace m + inject_Z (Z.of_nat size) * epsilon.
Proof.
  intros Hsq. unfold np.trace, np.diagonal.
  pose proof (add_square size m _ Hsq (scale_square size _ epsilon (eye_square size)))
    as [Hlen _].
  rewrite Hlen, (proj1 Hsq).
  rewrite (sum_ext _ (λ k, np.get m k k + epsilon)).
  - rewrite sum_plus_const, length_seq. reflexivity.
  - intros k Hk. apply elem_of_seq in Hk. unfold np.get at 1.
    rewrite (item_perturbed size) by (done || lia).
    rewrite Nat.eqb_refl. simpl. ring.
Qed.

Lemma trace_fill_nonneg chunk : 0 <= np.trace (fill_matrix chunk).
Proof.
  apply sum_nonneg. eapply Forall_impl; [apply diagonal_fill_steps|].
  intros d [Hd|Hd]; cbv beta; lra.
Qed.

Lemma epsilon_pos : 0 < epsilon.
Proof. reflexivity. Qed.

Lemma trace_threshold_pos : 0 < trace_threshold.
Proof. reflexivity. Qed.

Lemma inject_nat_pos n : (0 < n)%nat → 0 < inject_Z (Z.of_nat n).
Proof. intros Hn. change 0 with (inject_Z 0). rewrite <- Zlt_Qlt. lia. Qed.

(** The divisor of line 35 is positive for every non-empty chunk. *)
Lemma divisor_pos chunk : chunk ≠ [] → 0 < divisor chunk.
Proof.
  intros Hne. rewrite <- trace_stabilized.
  destruct (needs_perturbation chunk) eqn:Hp.
  - rewrite (stabilized_perturbed _ Hp).
    rewrite (trace_perturbed _ _ (fill_matrix_square chunk)).
    pose proof (trace_fill_nonneg chunk) as Ht.
    assert (0 < inject_Z (Z.of_nat (np.ceil_sqrt (length chunk)))) as Hs.
    { apply inject_nat_pos, ceil_sqrt_pos. destruct chunk; simpl; [done|lia]. }
    pose proof epsilon_pos as He.
    pose proof (Qmult_lt_0_compat _ _ Hs He). lra.
  - rewrite (stabilized_direct _ Hp). simpl.
    assert (¬ np.trace (fill_matrix chunk) < trace_threshold) as Hge.
    { rewrite <- needs_perturbation_trace. by rewrite Hp. }
    pose proof trace_threshold_pos. lra.
Qed.

Lemma chunk_to_density_square chunk :
  square (np.ceil_sqrt (length chunk)) (chunk_to_density chunk).
Proof.
  rewrite chunk_to_density_unfold. apply divide_square, stabilized_square.
Qed.

Lemma trace_chunk_to_density chunk :
  chunk ≠ [] → np.trace (chunk_to_density chunk) == 1.
Proof.
  intros Hne. rewrite chunk_to_density_unfold, trace_divide, trace_stabilized.
  pose proof (divisor_pos chunk Hne). field. lra.
Qed.

Lemma stabilized_nonneg chunk :
  Forall (Forall (λ v, 0 <= v)) (fst (stabilized chunk)).
Proof.
  apply Forall_entries. intros r c v Hv.
  destruct (item_in_range _ _ _ _ _ (stabilized_square chunk) Hv) as [Hr Hc].
  assert (0 <= np.get (fill_matrix chunk) r c) as Hfill.
  { rewrite (get_fill_matrix chunk r c Hr Hc).
    destruct (chunk !! _) as [b|]; simpl; [apply byte_value_range|apply Qle_refl]. }
  destruct (needs_perturbation chunk) eqn:Hp.
  - rewrite (stabilized_perturbed _ Hp) in Hv.
    rewrite (item_perturbed _ _ r c (fill_matrix_square chunk) Hr Hc) in Hv.
    injection Hv as <-. pose proof epsilon_pos.
    destruct (Nat.eqb r c); lra.
  - rewrite (stabilized_direct _ Hp) in Hv. simpl in Hv.
    unfold np.get in Hfill. by rewrite Hv in Hfill.
Qed.

Lemma density_entry_nonneg chunk r c v :
  chunk ≠ [] → np.item (chunk_to_density chunk) r c = Some v → 0 <= v.
Proof.
  intros Hne. pose proof (divisor_pos chunk Hne) as Hd.
  rewrite chunk_to_density_unfold, item_divide.
  destruct (np.item _ r c) as [x|] eqn:Hx; simpl; [|done].
  intros [= <-].
  pose proof (proj1 (Forall_entries _ _) (stabilized_nonneg chunk) r c x Hx) as H0.
  cbv beta in H0. apply Qle_shift_div_l; [exact Hd|]. lra.
Qed.

End Stabilized.

(** ** Properties of the command line *)

Section CommandLine.

Import cli.
Context `{Collaborators}.

Ltac py_unfold :=
  unfold run, main, guarded, process, try_except, emit, sys_exit, returns,
    exit_code, events, mbind, mret, py_bind, py_ret; simpl.

Lemma run_wrong_count argv :
  length argv ≠ 3%nat →
  run argv = (SystemExit 1, [Stderr usage]).
Proof.
  intros Hlen. py_unfold.
  destruct (length argv =? 3)%nat eqn:E; [|done].
  by apply Nat.eqb_eq in E.
Qed.

Lemma run_invalid_base64 prog chunk_b64 chunk_id e :
  b64decode chunk_b64 = inl e →
  run [prog; chunk_b64; chunk_id] =
    (SystemExit 3, [Stderr "Error: Invalid base64 encoding in chunk data"]).
Proof. intros Hd. py_unfold. by rewrite Hd. Qed.

Lemma run_oversized prog chunk_b64 chunk_id chunk_bytes :
  b64decode chunk_b64 = inr chunk_bytes →
  (size_cap < Z.of_nat (length chunk_bytes))%Z →
  run [prog; chunk_b64; chunk_id] =
    (SystemExit 4, [Stderr "Error: Chunk too large for processing"]).
Proof.
  intros Hd Hlen. py_unfold. rewrite Hd.
  apply Z.ltb_lt in Hlen. by rewrite Hlen.
Qed.

Lemma run_admitted prog chunk_b64 chunk_id chunk_bytes :
  b64decode chunk_b64 = inr chunk_bytes →
  (Z.of_nat (length chunk_bytes) ≤ size_cap)%Z →
  exit_code (run [prog; chunk_b64; chunk_id]) =
    match internal_error chunk_bytes chunk_id with Some _ => 2 | None => 0 end%Z ∧
  ∃ rest, events (run [prog; chunk_b64; chunk_id]) =
            Called_chunk_to_density chunk_bytes :: rest.
Proof.
  intros Hd Hlen. unfold internal_error. py_unfold. rewrite Hd.
  apply Z.ltb_ge in Hlen. rewrite Hlen.
  destruct (QuantumZKP _) as [e|z]; [eauto|].
  destruct (prove_vector_knowledge _ _ _) as [e|cp]; [eauto|].
  destruct (calculate_entropy _) as [e|entropy]; [eauto|].
  destruct (dumps_result _ _ _ _) as [e|text]; eauto.
Qed.

End CommandLine.

(** ** The encoder on a store and on values *)

Section InPlace.

Lemma load_new m (h : inplace.store) : inplace.load (length h) (h ++ [m]) = m.
Proof.
  unfold inplace.load. by rewrite lookup_app_r, Nat.sub_diag by lia.
Qed.

Lemma load_old m (h : inplace.store) a :
  (a < length h)%nat → inplace.load a (h ++ [m]) = inplace.load a h.
Proof. intros Ha. unfold inplace.load. by rewrite lookup_app_l. Qed.

Lemma load_update a f (h : inplace.store) :
  (a < length h)%nat →
  inplace.load a (inplace.update a f h) = f (inplace.load a h).
Proof.
  intros Ha. unfold inplace.load, inplace.update.
  rewrite list_lookup_alter_eq.
  by destruct (lookup_lt_is_Some_2 h a Ha) as [m ->].
Qed.

Lemma load_update_ne a a' f (h : inplace.store) :
  a ≠ a' → inplace.load a' (inplace.update a f h) = inplace.load a' h.
Proof.
  intros Ha. unfold inplace.load, inplace.update.
  by rewrite list_lookup_alter_ne.
Qed.

Lemma length_update a f (h : inplace.store) :
  length (inplace.update a f h) = length h.
Proof. apply length_alter. Qed.

Lemma length_fill_loop size rest : ∀ i matrix h,
  length (inplace.fill_loop size rest i matrix h) = length h.
Proof.
  induction rest as [|b rest IH]; intros i matrix h; simpl; [done|].
  rewrite IH. destruct (_ && _); [apply length_update|done].
Qed.

(** The loop changes the array at [matrix] as the loop on values does ... *)
Lemma load_fill_loop size rest : ∀ i matrix h,
  (matrix < length h)%nat →
  inplace.load matrix (inplace.fill_loop size rest i matrix h) =
    fill_loop size rest i (inplace.load matrix h).
Proof.
  induction rest as [|b rest IH]; intros i matrix h Hm; simpl; [done|].
  destruct (_ && _).
  - rewrite IH by by rewrite length_update. by rewrite load_update.
  - by apply IH.
Qed.

(** ... and no other array. *)
Lemma load_fill_loop_ne size rest : ∀ i matrix h a,
  a ≠ matrix →
  inplace.load a (inplace.fill_loop size rest i matrix h) = inplace.load a h.
Proof.
  induction rest as [|b rest IH]; intros i matrix h a Ha; simpl; [done|].
  rewrite IH by done. destruct (_ && _); [|done].
  by apply load_update_ne.
Qed.

(** The call on a store returns the array that [chunk_to_density] computes
    and leaves the arrays it found as they were. *)
Lemma chunk_to_density_store chunk h :
  inplace.load (inplace.chunk_to_density chunk h).1
               (inplace.chunk_to_density chunk h).2
    = chunk_to_density chunk ∧
  ∀ old, (old < length h)%nat →
    inplace.load old (inplace.chunk_to_density chunk h).2 = inplace.load old h.
Proof.
  unfold inplace.chunk_to_density, chunk_to_density, stabilized,
    needs_perturbation, fill_matrix, inplace.alloc.
  set (size := np.ceil_sqrt (length chunk)).
  set (zeros := np.zeros size size).
  set (matrix := length h).
  set (h0 := h ++ [zeros]).
  assert (matrix < length h0)%nat as Hlt.
  { unfold h0. rewrite length_app. simpl. lia. }
  assert (inplace.load matrix h0 = zeros) as Hz by apply load_new.
  set (h1 := inplace.fill_loop size chunk 0 matrix h0).
  assert (inplace.load matrix h1 = fill_loop size chunk 0 zeros) as Hfill.
  { unfold h1. by rewrite load_fill_loop, Hz. }
  assert (length h1 = length h0) as Hlen1 by apply length_fill_loop.
  assert (∀ old, (old < length h)%nat →
                 inplace.load old h1 = inplace.load old h) as Hold1.
  { intros old Ho. unfold h1. rewrite load_fill_loop_ne by (unfold matrix; lia).
    by apply load_old. }
  rewrite Hfill.
  destruct (Qlt_le_dec _ _) as [Hsmall|Hbig].
  - set (h2 := h1 ++ [np.eye size]).
    assert (inplace.load (length h1) h2 = np.eye size) as Heye
      by apply load_new.
    rewrite Heye.
    set (h3 := h2 ++ [np.scale (np.eye size) epsilon]).
    assert (inplace.load (length h2) h3 = np.scale (np.eye size) epsilon)
      as Hdelta by apply load_new.
    rewrite Hdelta.
    assert (length h2 = S (length h1)) as Hlen2.
    { unfold h2. rewrite length_app. simpl. lia. }
    assert (length h3 = S (length h2)) as Hlen3.
    { unfold h3. rewrite length_app. simpl. lia. }
    assert (inplace.load matrix h3 = fill_loop size chunk 0 zeros) as Hm3.
    { unfold h3. rewrite load_old by lia.
      unfold h2. rewrite load_old by lia. exact Hfill. }
    set (h4 := inplace.update matrix _ h3).
    assert (inplace.load matrix h4 =
            np.add (fill_loop size chunk 0 zeros)
                   (np.scale (np.eye size) epsilon)) as Hm4.
    { unfold h4. rewrite load_update by lia. by rewrite Hm3. }
    rewrite Hm4. simpl. split.
    + apply load_new.
    + intros old Ho. fold matrix in Ho.
      rewrite load_old by (unfold h4; rewrite length_update; lia).
      unfold h4. rewrite load_update_ne by lia.
      unfold h3. rewrite load_old by lia.
      unfold h2. rewrite load_old by lia.
      by apply Hold1.
  - simpl. split.
    + rewrite <- Hfill. apply load_new.
    + intros old Ho. fold matrix in Ho. rewrite load_old by lia.
      by apply Hold1.
Qed.

End InPlace.

(** ** The sample decoder on long arguments *)

Lemma b64decode_zeros n :
  sample.b64decode (sample.zeros_b64 n) = inr (replicate (3 * n + 2) x00).
Proof.
  induction n as [|n IH]; [reflexivity|].
  unfold sample.zeros_b64 in *. rewrite Nat.iter_succ.
  change (String.append "AAAA" ?s)
    with (String "A" (String "A" (String "A" (String "A" s)))).
  cbn [sample.b64decode]. 
  change (sample.b64_value "A") with (Some 0%N). cbn iota beta.
  change (sample.is_pad "A") with false. cbn [andb]. cbn iota.
  rewrite IH. replace (3 * S n + 2)%nat with (3 + (3 * n + 2))%nat by lia.
  reflexivity.
Qed.

Lemma length_oversized :
  Z.of_nat (length (replicate (3 * Z.to_nat 3333333 + 2) x00)) = 10000001%Z.
Proof. rewrite length_replicate. lia. Qed.

(** ** Line 16 in binary64 agrees with [np.ceil_sqrt] *)

Section Binary64.

Lemma check_run_sound kf len : ∀ lo n,
  binary64.check_run kf lo len = true →
  (lo ≤ n < lo + Z.of_nat len)%Z → binary64.ceil_sqrt n = kf.
Proof.
  induction len as [|len IH]; intros lo n Hc Hn; [lia|].
  simpl in Hc. apply andb_true_iff in Hc as [Hhere Hrest].
  destruct (Z.eq_dec n lo) as [->|Hne].
  - by apply FloatAxioms.Leibniz.eqb_spec.
  - apply (IH (Z.succ lo)); [done|lia].
Qed.

Lemma check_root_sound k n :
  binary64.check_root k = true →
  (0 < k)%Z → ((k - 1) * (k - 1) < n ≤ k * k)%Z → binary64.size n = k.
Proof.
  unfold binary64.check_root. intros Hc Hk Hn.
  apply andb_true_iff in Hc as [Hk' Hrun]. apply Z.eqb_eq in Hk'.
  unfold binary64.size.
  rewrite (check_run_sound _ _ _ n Hrun); [done|lia].
Qed.

Lemma check_roots_sound count : ∀ k j,
  binary64.check_roots k count = true →
  (k ≤ j < k + Z.of_nat count)%Z → binary64.check_root j = true.
Proof.
  induction count as [|count IH]; intros k j Hc Hj; [lia|].
  simpl in Hc. apply andb_true_iff in Hc as [Hhere Hrest].
  destruct (Z.eq_dec j k) as [->|Hne]; [done|].
  apply (IH (Z.succ k)); [done|lia].
Qed.

(** Every length from 1 to 3163^2 = 10,004,569, evaluated. *)
Lemma roots_checked : binary64.check_roots 1 (Z.to_nat 3163) = true.
Proof. vm_cast_no_check (eq_refl true). Qed.

Lemma ceil_sqrt_Z n : Z.of_nat (np.ceil_sqrt n) = Z.sqrt_up (Z.of_nat n).
Proof.
  destruct n as [|n]; [reflexivity|]. symmetry.
  pose proof (ceil_sqrt_spec (S n) ltac:(lia)) as [Hlow Hup].
  pose proof (ceil_sqrt_pos (S n) ltac:(lia)) as Hpos.
  apply Z.sqrt_up_unique; [lia|].
  replace (Z.pred (Z.of_nat (np.ceil_sqrt (S n))))
    with (Z.of_nat (Nat.pred (np.ceil_sqrt (S n)))) by lia.
  rewrite <- !Nat2Z.inj_mul. lia.
Qed.

(** For every chunk length up to the size cap, line 16 evaluated in
    binary64 gives [np.ceil_sqrt]. *)
Lemma size_binary64 (n : nat) :
  (Z.of_nat n ≤ cli.size_cap)%Z →
  binary64.size (Z.of_nat n) = Z.of_nat (np.ceil_sqrt n).
Proof.
  unfold cli.size_cap. intros Hn. rewrite ceil_sqrt_Z.
  destruct n as [|n]; [reflexivity|].
  set (a := Z.of_nat (S n)) in *.
  pose proof (Z.sqrt_up_spec a ltac:(lia)) as Hs.
  assert (0 < Z.sqrt_up a)%Z as Hpos by (apply Z.sqrt_up_pos; lia).
  assert (Z.sqrt_up a ≤ 3163)%Z as Hle.
  { destruct (Z_le_gt_dec (Z.sqrt_up a) 3163); [done|]. nia. }
  apply check_root_sound; [|done|].
  - apply (check_roots_sound _ 1 _ roots_checked). lia.
  - replace (Z.sqrt_up a - 1)%Z with (Z.pred (Z.sqrt_up a)) by lia. lia.
Qed.

End Binary64.

(** ** Rounding the returned entries *)

Section Rounding.

Lemma zero_within delta : Qabs (0 - 0) <= delta * Qabs 0.
Proof. change (Qabs (0 - 0)) with 0. change (Qabs 0) with 0. lra. Qed.

Lemma within_get delta (E M : np.ndarray) r c :
  within delta E M →
  Qabs (np.get E r c - np.get M r c) <= delta * Qabs (np.get M r c).
Proof.
  intros Hw. unfold np.get, np.item.
  pose proof (proj1 (Forall2_lookup _ _ _) Hw r) as Hr.
  destruct Hr as [rowE rowM Hrow|]; simpl.
  - pose proof (proj1 (Forall2_lookup _ _ _) Hrow c) as Hc.
    destruct Hc as [e m Hem|]; simpl; [exact Hem|apply zero_within].
  - apply zero_within.
Qed.

Lemma sum_within {A} (f g : A → Q) delta (l : list A) :
  (∀ k, k ∈ l → 0 <= g k ∧ Qabs (f k - g k) <= delta * Qabs (g k)) →
  Qabs (np.sum (f <$> l) - np.sum (g <$> l)) <= delta * np.sum (g <$> l).
Proof.
  induction l as [|a l IH]; intros Hfg.
  - change (Qabs (0 - 0) <= delta * 0). change (Qabs (0 - 0)) with 0. lra.
  - rewrite !fmap_cons, !sum_cons.
    destruct (Hfg a) as [Hg Ha]; [apply list_elem_of_here|].
    rewrite (Qabs_pos _ Hg) in Ha.
    assert (Qabs (np.sum (f <$> l) - np.sum (g <$> l))
            <= delta * np.sum (g <$> l)) as Hl.
    { apply IH. intros k Hk. apply Hfg. by apply list_elem_of_further. }
    setoid_replace (f a + np.sum (f <$> l) - (g a + np.sum (g <$> l)))
      with ((f a - g a) + (np.sum (f <$> l) - np.sum (g <$> l)))
      using relation Qeq by ring.
    eapply Qle_trans; [apply Qabs_triangle|]. lra.
Qed.

(** Entries within relative error [delta] of a matrix of non-negative
    entries of trace 1 have a trace within [delta] of 1. *)
Lemma trace_within delta (E M : np.ndarray) :
  within delta E M →
  (∀ r c v, np.item M r c = Some v → 0 <= v) →
  np.trace M == 1 →
  Qabs (np.trace E - 1) <= delta.
Proof.
  intros Hw Hpos Ht. rewrite <- Ht at 1.
  apply (Qle_trans _ (delta * np.trace M)); [|rewrite Ht; lra].
  unfold np.trace, np.diagonal. rewrite (Forall2_length _ _ _ Hw).
  apply sum_within. intros k _. split; [|by apply within_get].
  unfold np.get. destruct (np.item M k k) as [v|] eqn:Hv; simpl; [|lra].
  by apply (Hpos k k).
Qed.

End Rounding.

(** ** The standard library's decoder on valid and on other text *)

Example b64decode_skips_other_characters :
  base64.b64decode "$$$$" = inr [] ∧
  base64.b64decode "AQ==$$" = inr [x01] ∧
  base64.b64decode "AQ=x=" = inr [x01; x0c] ∧
  base64.b64decode "AQEBAQ==" = inr [x01; x01; x01; x01] ∧
  base64.b64decode "not-base64-$$" = inl "Invalid base64-encoded string"%string ∧
  base64.b64decode "AQ=" = inl "Incorrect padding"%string.
Proof. by vm_compute. Qed.

Section Base64.

Lemma alphabet_character c :
  base64.is_alphabet c = true →
  sample.is_pad c = false ∧ (N_of_ascii c <? 128)%N = true ∧
  ∃ v, sample.b64_value c = Some v.
Proof.
  unfold base64.is_alphabet.
  destruct (sample.b64_value c) as [v|] eqn:Hv; [|done]. intros _.
  split; [|split; [|by exists v]].
  - destruct (sample.is_pad c) eqn:Hp; [|done].
    apply Ascii.eqb_eq in Hp. subst c. by vm_compute in Hv.
  - revert Hv. unfold sample.b64_value.
    repeat case_match; try done; intros _; apply N.ltb_lt;
      repeat match goal with
             | H : (_ && _) = true |- _ => apply andb_true_iff in H as [? ?]
             | H : (_ <=? _)%N = true |- _ => apply N.leb_le in H
             | H : (_ =? _)%N = true |- _ => apply N.eqb_eq in H
             end; lia.
Qed.

Lemma pad_character c :
  sample.is_pad c = true → (N_of_ascii c <? 128)%N = true.
Proof. intros Hp. apply Ascii.eqb_eq in Hp. by subst c. Qed.

Lemma empty_rest (rest : string) :
  match rest with EmptyString => true | _ => false end = true →
  rest = EmptyString.
Proof. by destruct rest. Qed.

(** Valid base64 is ASCII. *)
Lemma valid_all_ascii n s :
  (String.length s ≤ n)%nat → base64.valid s = true →
  base64.all_ascii s = true.
Proof.
  revert s. induction n as [|n IH]; intros s Hn Hs.
  { destruct s; [done|simpl in Hn; lia]. }
  destruct s as [|a [|b [|c [|d rest]]]]; try done.
  cbn [base64.valid] in Hs.
  apply andb_true_iff in Hs as [Hab Hs].
  apply andb_true_iff in Hab as [Ha Hb].
  destruct (alphabet_character a Ha) as (_ & Ha' & _).
  destruct (alphabet_character b Hb) as (_ & Hb' & _).
  cbn [base64.all_ascii]. rewrite Ha', Hb'. cbn [andb].
  destruct (sample.is_pad c) eqn:Hc.
  - apply andb_true_iff in Hs as [Hd Hr]. apply empty_rest in Hr as ->.
    by rewrite (pad_character c Hc), (pad_character d Hd).
  - apply andb_true_iff in Hs as [Hc' Hs].
    destruct (alphabet_character c Hc') as (_ & -> & _). cbn [andb].
    destruct (sample.is_pad d) eqn:Hd.
    + apply empty_rest in Hs as ->. by rewrite (pad_character d Hd).
    + apply andb_true_iff in Hs as [Hd' Hs].
      destruct (alphabet_character d Hd') as (_ & -> & _). cbn [andb].
      apply IH; [simpl in Hn; lia|done].
Qed.

(** On valid base64 the loop ends without an error, group by group. *)
Lemma a2b_loop_valid n s bin_data :
  (String.length s ≤ n)%nat → base64.valid s = true →
  ∃ data, base64.a2b_loop s 0 0 0 bin_data = inr data.
Proof.
  revert s bin_data. induction n as [|n IH]; intros s bin_data Hn Hs.
  { destruct s; [by eexists|simpl in Hn; lia]. }
  destruct s as [|a [|b [|c [|d rest]]]]; try done; [by eexists|].
  cbn [base64.valid] in Hs.
  apply andb_true_iff in Hs as [Hab Hs].
  apply andb_true_iff in Hab as [Ha Hb].
  destruct (alphabet_character a Ha) as (Hpa & _ & x & Hx).
  destruct (alphabet_character b Hb) as (Hpb & _ & y & Hy).
  cbn [base64.a2b_loop]. rewrite Hpa, Hx. cbn [N.eqb].
  rewrite Hpb, Hy. cbn [N.eqb Pos.eqb].
  destruct (sample.is_pad c) eqn:Hc.
  - apply andb_true_iff in Hs as [Hd Hr].
    rewrite Hd. cbn. by eexists.
  - apply andb_true_iff in Hs as [Hc' Hs].
    destruct (alphabet_character c Hc') as (_ & _ & z & ->).
    cbn [N.eqb Pos.eqb].
    destruct (sample.is_pad d) eqn:Hd.
    + cbn. by eexists.
    + apply andb_true_iff in Hs as [Hd' Hs].
      destruct (alphabet_character d Hd') as (_ & _ & w & ->).
      cbn [N.eqb Pos.eqb].
      apply IH; [simpl in Hn; lia|done].
Qed.

(** The decoder raises on no valid base64 text. *)
Lemma b64decode_valid s :
  base64.valid s = true → ∃ data, base64.b64decode s = inr data.
Proof.
  intros Hs. unfold base64.b64decode.
  rewrite (valid_all_ascii _ s (le_n _) Hs).
  by apply (a2b_loop_valid _ s [] (le_n _)).
Qed.

(** Without [=] the loop counts the characters of the alphabet in fours and
    raises exactly when the last group is unfinished. *)
Lemma a2b_loop_no_pad s quad_pos leftchar pads bin_data :
  (quad_pos < 4)%N → base64.has_pad s = false →
  (∃ e, base64.a2b_loop s quad_pos leftchar pads bin_data = inl e) ↔
  ((N.to_nat quad_pos + base64.count_alphabet s) mod 4 ≠ 0)%nat.
Proof.
  revert quad_pos leftchar pads bin_data.
  induction s as [|c rest IH]; intros quad_pos leftchar pads bin_data Hq Hs.
  - assert (quad_pos = 0 ∨ quad_pos = 1 ∨ quad_pos = 2 ∨ quad_pos = 3)%N
      as [-> | [-> | [-> | ->]]] by lia; simpl.
    + split; [by intros [e He]|done].
    + split; [done|]. intros _. by eexists.
    + split; [done|]. intros _. by eexists.
    + split; [done|]. intros _. by eexists.
  - cbn [base64.has_pad] in Hs. apply orb_false_iff in Hs as [Hc Hs].
    cbn [base64.a2b_loop base64.count_alphabet]. rewrite Hc.
    unfold base64.is_alphabet.
    destruct (sample.b64_value c) as [v|].
    + assert (quad_pos = 0 ∨ quad_pos = 1 ∨ quad_pos = 2 ∨ quad_pos = 3)%N
        as [-> | [-> | [-> | ->]]] by lia; cbn [N.eqb Pos.eqb].
      * rewrite IH by (done || lia).
        by replace (N.to_nat 1 + base64.count_alphabet rest)%nat
          with (N.to_nat 0 + (1 + base64.count_alphabet rest))%nat by lia.
      * rewrite IH by (done || lia).
        by replace (N.to_nat 2 + base64.count_alphabet rest)%nat
          with (N.to_nat 1 + (1 + base64.count_alphabet rest))%nat by lia.
      * rewrite IH by (done || lia).
        by replace (N.to_nat 3 + base64.count_alphabet rest)%nat
          with (N.to_nat 2 + (1 + base64.count_alphabet rest))%nat by lia.
      * rewrite IH by (done || lia).
        replace (N.to_nat 3 + (1 + base64.count_alphabet rest))%nat
          with (N.to_nat 0 + base64.count_alphabet rest + 1 * 4)%nat by lia.
        by rewrite Nat.Div0.mod_add.
    + by rewrite IH.
Qed.

End Base64.

(** ** The two paths of lines 30-35 *)

Section Paths.

Lemma flatten_divide (m : np.ndarray) s :
  np.flatten (np.divide m s) = (λ x, x / s) <$> np.flatten m.
Proof.
  unfold np.flatten, np.divide.
  induction m as [|row m IH]; [done|].
  rewrite fmap_cons. cbn [concat]. rewrite fmap_app. by rewrite <- IH.
Qed.

Lemma sum_zero (l : list Q) : Forall (λ d, d == 0) l → np.sum l == 0.
Proof.
  induction 1 as [|d l Hd _ IH]; [reflexivity|].
  rewrite sum_cons, Hd, IH. reflexivity.
Qed.

(** On the perturbation path the filled diagonal is zero. *)
Lemma perturbed_diagonal_zero chunk k :
  needs_perturbation chunk = true →
  np.get (fill_matrix chunk) k k == 0.
Proof.
  intros Hp.
  destruct (decide (k < np.ceil_sqrt (length chunk))%nat) as [Hk|Hk].
  - rewrite (get_fill_matrix chunk k k Hk Hk).
    fold (diagonal_byte chunk k).
    destruct (diagonal_byte chunk k) as [b|] eqn:Hb; simpl; [|reflexivity].
    apply byte_value_zero.
    by apply (proj1 (needs_perturbation_diagonal chunk) Hp k).
  - unfold np.get.
    destruct (np.item (fill_matrix chunk) k k) as [v|] eqn:Hv; [|reflexivity].
    destruct (item_in_range _ _ _ _ _ (fill_matrix_square chunk) Hv). lia.
Qed.

Lemma perturbed_trace_zero chunk :
  needs_perturbation chunk = true → np.trace (fill_matrix chunk) == 0.
Proof.
  intros Hp. apply sum_zero. unfold np.diagonal.
  apply Forall_fmap, Forall_forall. intros k _. simpl.
  by apply perturbed_diagonal_zero.
Qed.

Lemma perturbed_divisor chunk :
  needs_perturbation chunk = true →
  divisor chunk == inject_Z (Z.of_nat (np.ceil_sqrt (length chunk))) * epsilon.
Proof.
  intros Hp. rewrite <- trace_stabilized, (stabilized_perturbed _ Hp).
  rewrite (trace_perturbed _ _ (fill_matrix_square chunk)).
  rewrite (perturbed_trace_zero _ Hp). ring.
Qed.

(** On the direct path the divisor is the trace of the filled matrix, a
    whole number, and at least 1. *)
Lemma direct_divisor chunk :
  needs_perturbation chunk = false →
  divisor chunk = np.trace (fill_matrix chunk) ∧ 1 <= divisor chunk.
Proof.
  intros Hp. unfold divisor. rewrite (stabilized_direct _ Hp). simpl.
  split; [done|].
  destruct (trace_fill_whole chunk) as (z & Hz & Hb).
  assert (¬ np.trace (fill_matrix chunk) < trace_threshold) as Hge.
  { rewrite <- needs_perturbation_trace. by rewrite Hp. }
  rewrite Hz in *. change 1 with (inject_Z 1). rewrite <- Zle_Qle.
  destruct (Z_le_gt_dec 1 z) as [|Hlt]; [done|].
  exfalso. apply Hge. assert (z = 0%Z) as -> by lia. reflexivity.
Qed.

Lemma get_chunk_to_density chunk r c :
  np.get (chunk_to_density chunk) r c
    == np.get (fst (stabilized chunk)) r c / divisor chunk.
Proof. rewrite chunk_to_density_unfold. apply get_divide. Qed.

Lemma elem_le_sum (l : list Q) i d :
  Forall (λ d, 0 <= d) l → l !! i = Some d → d <= np.sum l.
Proof.
  intros Hl. revert i. induction Hl as [|x l Hx Hl IH]; intros i Hi; [done|].
  rewrite sum_cons. pose proof (sum_nonneg l Hl) as Hs.
  destruct i as [|i]; simpl in Hi.
  - injection Hi as ->. lra.
  - specialize (IH i Hi). lra.
Qed.

End Paths.

(** * The claims *)

(** C1.  For every non-empty byte chunk, the matrix returned by
    [chunk_to_density] has trace 1: exactly so over the rationals, hence
    within the relative tolerance 1e-9; and every matrix whose entries are
    within a relative error of at most 1e-9 of the returned ones, as their
    roundings to binary64 are, has a trace within that tolerance of 1. *)
Theorem chunk_to_density_trace (chunk : bytes) :
  chunk ≠ [] →
  np.trace (chunk_to_density chunk) == 1 ∧
  Qabs (np.trace (chunk_to_density chunk) - 1) <= trace_tolerance * Qabs 1 ∧
  ∀ delta E,
    within delta E (chunk_to_density chunk) → delta <= trace_tolerance →
    Qabs (np.trace E - 1) <= trace_tolerance * Qabs 1.
Proof.
  intros Hne. pose proof (trace_chunk_to_density chunk Hne) as Ht.
  split; [exact Ht|]. split; [rewrite Ht; by vm_compute|].
  intros delta E Hw Hdelta.
  change (Qabs 1) with 1.
  apply (Qle_trans _ delta); [|lra].
  apply (trace_within delta E (chunk_to_density chunk) Hw); [|exact Ht].
  intros r c v. by apply density_entry_nonneg.
Qed.

Lemma chunk_to_density_trace_witness :
  [x02; x05; x06] ≠ ([] : bytes) ∧
  np.trace (chunk_to_density [x02; x05; x06]) == 1.
Proof.
  assert ([x02; x05; x06] ≠ ([] : bytes)) as Hne by discriminate.
  split; [exact Hne|].
  exact (proj1 (chunk_to_density_trace [x02; x05; x06] Hne)).
Defined.

(** C2.  For the all-zero chunk of any positive length the trace of the
    filled matrix is below 1e-10, so 1e-6 times the identity is added; the
    divisor of line 35 is then [size * 1e-6], strictly positive, and the
    returned matrix has trace 1. *)
Theorem all_zero_chunk_perturbed (n : nat) :
  (0 < n)%nat →
  let chunk : bytes := replicate n x00 in
  let size := np.ceil_sqrt n in
  np.trace (fill_matrix chunk) < trace_threshold ∧
  fst (stabilized chunk) =
    np.add (fill_matrix chunk) (np.scale (np.eye size) epsilon) ∧
  divisor chunk == inject_Z (Z.of_nat size) * epsilon ∧
  0 < divisor chunk ∧
  np.trace (chunk_to_density chunk) == 1 ∧
  Qabs (np.trace (chunk_to_density chunk) - 1) <= trace_tolerance * Qabs 1.
Proof.
  intros Hn chunk size.
  assert (chunk ≠ []) as Hne.
  { unfold chunk. destruct n; [lia|discriminate]. }
  assert (length chunk = n) as Hlen by apply length_replicate.
  assert (needs_perturbation chunk = true) as Hp.
  { apply needs_perturbation_diagonal. intros k b Hb.
    unfold diagonal_byte, chunk in Hb.
    by apply lookup_replicate in Hb as [-> _]. }
  assert (np.trace (fill_matrix chunk) == 0) as Hzero.
  { apply Qle_antisym; [|apply trace_fill_nonneg].
    apply needs_perturbation_trace in Hp as Hlt.
    pose proof (diagonal_fill_steps chunk) as Hsteps.
    apply (small_sum_zero _ Hsteps) in Hlt. unfold np.trace.
    clear -Hlt. induction Hlt as [|d l Hd _ IH]; [apply Qle_refl|].
    rewrite sum_cons. lra. }
  pose proof (trace_chunk_to_density chunk Hne) as Ht.
  repeat split.
  - by apply needs_perturbation_trace.
  - rewrite (stabilized_perturbed _ Hp). by rewrite Hlen.
  - rewrite <- trace_stabilized, (stabilized_perturbed _ Hp).
    rewrite (trace_perturbed _ _ (fill_matrix_square chunk)).
    rewrite Hzero, Hlen. unfold size. ring.
  - by apply divisor_pos.
  - exact Ht.
  - rewrite Ht. by vm_compute.
Qed.

Lemma all_zero_chunk_perturbed_witness :
  (0 < 5)%nat ∧ 0 < divisor (replicate 5 x00).
Proof.
  assert (0 < 5)%nat as H5 by lia.
  split; [exact H5|].
  exact (proj1 (proj2 (proj2 (proj2 (all_zero_chunk_perturbed 5 H5))))).
Defined.

(** C3.  For a non-empty chunk of length [n] the filled matrix is [size] by
    [size] with [size] the ceiling of the square root of [n], which is also
    what line 16 gives in binary64 for a length up to the cap; before
    normalization entry [(i / size, i mod size)] is the value of byte [i],
    a whole number in 0..255, for every [i < n], and every other entry
    is 0. *)
Theorem fill_matrix_layout (chunk : bytes) :
  chunk ≠ [] →
  let n := length chunk in
  let size := np.ceil_sqrt n in
  ((size - 1) * (size - 1) < n ∧ n ≤ size * size)%nat ∧
  ((Z.of_nat n ≤ 10000000)%Z → binary64.size (Z.of_nat n) = Z.of_nat size) ∧
  square size (fill_matrix chunk) ∧
  (∀ i b, chunk !! i = Some b →
     np.item (fill_matrix chunk) (i / size) (i mod size)
       = Some (inject_Z (Z.of_N (Byte.to_N b))) ∧
     (0 ≤ Z.of_N (Byte.to_N b) ≤ 255)%Z) ∧
  (∀ r c, (r < size)%nat → (c < size)%nat → (n ≤ r * size + c)%nat →
     np.item (fill_matrix chunk) r c = Some 0).
Proof.
  intros Hne n size.
  assert (0 < n)%nat as Hn by (unfold n; destruct chunk; simpl; [done|lia]).
  pose proof (ceil_sqrt_spec n Hn) as [Hlow Hup]. fold size in Hlow, Hup.
  split; [split; [|exact Hup]|split; [|split; [|split]]].
  - replace (size - 1)%nat with (Nat.pred size) by lia. exact Hlow.
  - intros Hcap. by apply size_binary64.
  - apply fill_matrix_square.
  - intros i b Hb. apply lookup_lt_Some in Hb as Hi. fold n in Hi.
    destruct (index_in_range size i) as [Hr Hc]; [lia|]. split.
    + rewrite (fill_matrix_item chunk _ _ Hr Hc). fold n size.
      replace (i / size * size + i mod size)%nat with i
        by (rewrite (Nat.div_mod_eq i size) at 1; lia).
      by rewrite Hb.
    + pose proof (Byte.to_N_bounded b). lia.
  - intros r c Hr Hc Hge.
    rewrite (fill_matrix_item chunk r c Hr Hc). fold n size.
    by rewrite lookup_ge_None_2.
Qed.

Lemma fill_matrix_layout_witness :
  [x02; x05; x06] ≠ ([] : bytes) ∧
  np.item (fill_matrix [x02; x05; x06]) 1 1 = Some 0.
Proof.
  assert ([x02; x05; x06] ≠ ([] : bytes)) as Hne by discriminate.
  split; [exact Hne|].
  apply (proj2 (proj2 (proj2 (proj2 (fill_matrix_layout [x02; x05; x06] Hne)))) 1 1)%nat;
    vm_compute; lia.
Defined.

(** C4, as stated, fails: the argument that decodes to zero bytes is not
    rejected; [chunk_to_density] is the first thing called, on the empty
    chunk, and with collaborators that succeed the exit code is 0. *)
Lemma empty_chunk_reaches_encoder :
  sample.b64decode "" = inr [] ∧
  cli.events (@cli.run sample.succeeding ["prove_chunk_entropy.py"; ""; "test-1"]%string)
    = [cli.Called_chunk_to_density [];
       cli.Called_QuantumZKP 0;
       cli.Called_prove_vector_knowledge [] "test-1";
       cli.Called_calculate_entropy [];
       cli.Stdout "test-1"] ∧
  cli.exit_code (@cli.run sample.succeeding ["prove_chunk_entropy.py"; ""; "test-1"]%string)
    = 0%Z.
Proof. repeat split. Qed.

(** C4, amended.  An empty chunk is not rejected before the encoder: when
    the argument decodes to zero bytes, [main] prints no error of its own
    first and calls [chunk_to_density] on the empty chunk, which returns
    the empty array; the exit code is then 2 if a later step raises and 0
    otherwise. *)
Theorem empty_chunk_not_rejected `{cli.Collaborators}
    (prog chunk_b64 chunk_id : string) :
  cli.b64decode chunk_b64 = inr [] →
  (∃ rest, cli.events (cli.run [prog; chunk_b64; chunk_id])
             = cli.Called_chunk_to_density [] :: rest) ∧
  chunk_to_density [] = [] ∧
  cli.exit_code (cli.run [prog; chunk_b64; chunk_id])
    = match cli.internal_error [] chunk_id with Some _ => 2 | None => 0 end%Z.
Proof.
  intros Hd.
  destruct (run_admitted prog chunk_b64 chunk_id [] Hd) as [Hcode Hev];
    [by vm_compute|].
  by repeat split.
Qed.

Lemma empty_chunk_not_rejected_witness :
  sample.b64decode "" = inr [] ∧
  cli.exit_code (@cli.run sample.succeeding ["prove_chunk_entropy.py"; ""; "test-1"]%string)
    = 0%Z.
Proof.
  split; [reflexivity|].
  exact (proj2 (proj2 (@empty_chunk_not_rejected sample.succeeding
                         "prove_chunk_entropy.py" "" "test-1" eq_refl))).
Defined.

(** C5, as stated, fails: the filled 4 by 4 matrix of ones has trace 4, not
    16, and the normalized entries are not 1/16. *)
Lemma sixteen_ones_not_one_sixteenth :
  ¬ Forall (Forall (λ v, v == 1 # 16)) (chunk_to_density sixteen_ones) ∧
  ¬ np.trace (fill_matrix sixteen_ones) == 16.
Proof.
  split.
  - intros Hall.
    pose proof (proj1 (Forall_entries _ _) Hall 0%nat 0%nat (1 / 4) eq_refl) as H.
    by vm_compute in H.
  - intros H. by vm_compute in H.
Qed.

(** C5, amended.  For 16 bytes of value 0x01 the encoder produces a 4 by 4
    matrix whose entries all equal 1/4: the trace before normalization is
    the sum of the 4 diagonal ones, 4, and the returned trace is 1. *)
Theorem sixteen_ones_density :
  square 4 (chunk_to_density sixteen_ones) ∧
  Forall (Forall (λ v, v == 1 # 4)) (chunk_to_density sixteen_ones) ∧
  np.trace (fill_matrix sixteen_ones) == 4 ∧
  needs_perturbation sixteen_ones = false ∧
  np.trace (chunk_to_density sixteen_ones) == 1.
Proof.
  split; [|split; [|split; [|split]]].
  - apply (chunk_to_density_square sixteen_ones).
  - apply Forall_entries. intros r c v Hv.
    destruct (item_in_range _ _ _ _ _ (chunk_to_density_square sixteen_ones) Hv)
      as [Hr Hc].
    change (np.ceil_sqrt (length sixteen_ones)) with 4%nat in Hr, Hc.
    destruct r as [|[|[|[|r]]]]; [..|lia];
      (destruct c as [|[|[|[|c]]]]; [..|lia]);
      vm_compute in Hv; injection Hv as <-; reflexivity.
  - reflexivity.
  - reflexivity.
  - reflexivity.
Qed.

(** C6, against the claim as worded.  The code does not exit with 3 on
    every chunk argument that is not valid base64: line 48 decodes without
    validation, so [$$$$] decodes to the empty chunk and [AQ==$$] to one
    byte, and both runs go on to exit code 0. *)
Lemma invalid_base64_not_rejected :
  base64.valid "$$$$" = false ∧
  base64.b64decode "$$$$" = inr [] ∧
  cli.exit_code (@cli.run base64.succeeding
                   ["prove_chunk_entropy.py"; "$$$$"; "test-1"]%string) = 0%Z ∧
  base64.valid "AQ==$$" = false ∧
  base64.b64decode "AQ==$$" = inr [x01] ∧
  cli.exit_code (@cli.run base64.succeeding
                   ["prove_chunk_entropy.py"; "AQ==$$"; "test-1"]%string) = 0%Z.
Proof. by vm_compute. Qed.

(** C6, amended.  The exit code is 1 when [sys.argv] does not hold exactly
    two arguments after the program name, 3 exactly when decoding the chunk
    argument raises, 4 when the decoded chunk is longer than 10,000,000
    bytes, 2 when a later step raises, and 0 otherwise.  With the standard
    library's decoder valid base64 never gives 3, and 3 is given exactly
    when the text holds a character that is not ASCII or the lenient loop
    ends inside a group of four; for ASCII text without [=] that is when
    the number of its characters of the alphabet is not a multiple of
    four. *)
Theorem main_exit_codes `{cli.Collaborators} (argv : list string) :
  (length argv ≠ 3%nat → cli.exit_code (cli.run argv) = 1%Z) ∧
  (∀ prog chunk_b64 chunk_id, argv = [prog; chunk_b64; chunk_id] →
     (∀ e, cli.b64decode chunk_b64 = inl e →
           cli.exit_code (cli.run argv) = 3%Z) ∧
     (∀ chunk_bytes, cli.b64decode chunk_b64 = inr chunk_bytes →
        ((10000000 < Z.of_nat (length chunk_bytes))%Z →
           cli.exit_code (cli.run argv) = 4%Z) ∧
        ((Z.of_nat (length chunk_bytes) ≤ 10000000)%Z →
           (is_Some (cli.internal_error chunk_bytes chunk_id) →
              cli.exit_code (cli.run argv) = 2%Z) ∧
           (cli.internal_error chunk_bytes chunk_id = None →
              cli.exit_code (cli.run argv) = 0%Z))) ∧
     (cli.exit_code (cli.run argv) = 3%Z ↔
      ∃ e, cli.b64decode chunk_b64 = inl e) ∧
     ((∀ s, cli.b64decode s = base64.b64decode s) →
      (base64.valid chunk_b64 = true → cli.exit_code (cli.run argv) ≠ 3%Z) ∧
      (cli.exit_code (cli.run argv) = 3%Z ↔
       base64.all_ascii chunk_b64 = false ∨
       ∃ e, base64.a2b_loop chunk_b64 0 0 0 [] = inl e) ∧
      (base64.all_ascii chunk_b64 = true →
       base64.has_pad chunk_b64 = false →
       (cli.exit_code (cli.run argv) = 3%Z ↔
        (base64.count_alphabet chunk_b64 mod 4 ≠ 0)%nat)))).
Proof.
  split.
  - intros Hlen. by rewrite (run_wrong_count argv Hlen).
  - intros prog chunk_b64 chunk_id ->.
    assert (cli.exit_code (cli.run [prog; chunk_b64; chunk_id]) = 3%Z ↔
            ∃ e, cli.b64decode chunk_b64 = inl e) as Hiff.
    { destruct (cli.b64decode chunk_b64) as [e|chunk_bytes] eqn:Hd.
      - rewrite (run_invalid_base64 _ _ _ e Hd). split; [by exists e|done].
      - split; [|by intros [e He]]. intros Hcode. exfalso.
        destruct (Z_lt_le_dec 10000000 (Z.of_nat (length chunk_bytes)))
          as [Hbig|Hok].
        + by rewrite (run_oversized _ _ _ _ Hd Hbig) in Hcode.
        + destruct (run_admitted prog chunk_b64 chunk_id chunk_bytes Hd Hok)
            as [Hrun _].
          rewrite Hrun in Hcode. by destruct (cli.internal_error _ _). }
    split; [|split; [|split; [exact Hiff|]]].
    + intros e He. by rewrite (run_invalid_base64 _ _ _ e He).
    + intros chunk_bytes Hd. split.
      * intros Hbig. by rewrite (run_oversized _ _ _ _ Hd Hbig).
      * intros Hok.
        destruct (run_admitted prog chunk_b64 chunk_id chunk_bytes Hd Hok)
          as [Hcode _].
        rewrite Hcode. split.
        -- by intros [e ->].
        -- by intros ->.
    + intros Hstd. rewrite Hiff, Hstd. split; [|split].
      * intros Hvalid [e He].
        destruct (b64decode_valid _ Hvalid) as [data Hdata]. congruence.
      * unfold base64.b64decode.
        destruct (base64.all_ascii chunk_b64).
        -- split; [by right|]. by intros [|].
        -- split; [by left|]. intros _. by eexists.
      * intros Hascii Hpad. unfold base64.b64decode. rewrite Hascii.
        by rewrite (a2b_loop_no_pad chunk_b64 0 0 0 [] ltac:(lia) Hpad).
Qed.

(** The five exit codes on concrete command lines, and the third with the
    standard library's decoder. *)
Lemma main_exit_codes_witness :
  cli.exit_code (@cli.run sample.succeeding ["prove_chunk_entropy.py"; "AQEBAQ=="]%string) = 1%Z ∧
  cli.exit_code (@cli.run sample.succeeding
                   ["prove_chunk_entropy.py"; "not-base64-$$"; "test-1"]%string) = 3%Z ∧
  cli.exit_code (@cli.run sample.succeeding
                   ["prove_chunk_entropy.py"; sample.oversized_b64; "test-1"]%string) = 4%Z ∧
  cli.exit_code (@cli.run sample.failing
                   ["prove_chunk_entropy.py"; "AQEBAQ=="; "test-1"]%string) = 2%Z ∧
  cli.exit_code (@cli.run sample.succeeding
                   ["prove_chunk_entropy.py"; "AQEBAQ=="; "test-1"]%string) = 0%Z ∧
  cli.exit_code (@cli.run base64.succeeding
                   ["prove_chunk_entropy.py"; "not-base64-$$"; "test-1"]%string) = 3%Z ∧
  cli.exit_code (@cli.run base64.succeeding
                   ["prove_chunk_entropy.py"; "AQEBAQ=="; "test-1"]%string) ≠ 3%Z.
Proof.
  split; [|split; [|split; [|split; [|split; [|split]]]]].
  - apply (proj1 (@main_exit_codes sample.succeeding
                    ["prove_chunk_entropy.py"; "AQEBAQ=="]%string)).
    simpl. lia.
  - apply (proj1 (proj2 (@main_exit_codes sample.succeeding
                           ["prove_chunk_entropy.py"; "not-base64-$$"; "test-1"]%string)
                    _ _ _ eq_refl) "Invalid character"%string).
    reflexivity.
  - apply (proj1 (proj1 (proj2 (proj2 (@main_exit_codes sample.succeeding
                                  ["prove_chunk_entropy.py"; sample.oversized_b64; "test-1"]%string)
                           _ _ _ eq_refl))
                    _ (b64decode_zeros (Z.to_nat 3333333)))).
    rewrite length_oversized. lia.
  - destruct (proj2 (proj1 (proj2 (proj2 (@main_exit_codes sample.failing
                                     ["prove_chunk_entropy.py"; "AQEBAQ=="; "test-1"]%string)
                              _ _ _ eq_refl))
                       [x01; x01; x01; x01] eq_refl)) as [Hraise _];
      [simpl; lia|].
    apply Hraise. by eexists.
  - destruct (proj2 (proj1 (proj2 (proj2 (@main_exit_codes sample.succeeding
                                     ["prove_chunk_entropy.py"; "AQEBAQ=="; "test-1"]%string)
                              _ _ _ eq_refl))
                       [x01; x01; x01; x01] eq_refl)) as [_ Hfine];
      [simpl; lia|].
    apply Hfine. reflexivity.
  - destruct (proj2 (@main_exit_codes base64.succeeding
                       ["prove_chunk_entropy.py"; "not-base64-$$"; "test-1"]%string)
                _ _ _ eq_refl) as (_ & _ & _ & Hstd).
    apply (proj2 (proj2 (Hstd (λ s, eq_refl))) eq_refl eq_refl).
    by vm_compute.
  - destruct (proj2 (@main_exit_codes base64.succeeding
                       ["prove_chunk_entropy.py"; "AQEBAQ=="; "test-1"]%string)
                _ _ _ eq_refl) as (_ & _ & _ & Hstd).
    apply (proj1 (Hstd (λ s, eq_refl))). reflexivity.
Defined.

(** C7.  A decoded chunk longer than the cap, 10,000,001 bytes or more, ends
    the run with exit code 4 after one line on stderr: [chunk_to_density],
    the entropy tool and the proof engine are not called. *)
Theorem oversized_rejected_before_work `{cli.Collaborators}
    (prog chunk_b64 chunk_id : string) (chunk_bytes : bytes) :
  cli.b64decode chunk_b64 = inr chunk_bytes →
  (10000000 < Z.of_nat (length chunk_bytes))%Z →
  cli.exit_code (cli.run [prog; chunk_b64; chunk_id]) = 4%Z ∧
  cli.events (cli.run [prog; chunk_b64; chunk_id])
    = [cli.Stderr "Error: Chunk too large for processing"] ∧
  Forall (λ ev, cli.is_work ev = false)
    (cli.events (cli.run [prog; chunk_b64; chunk_id])).
Proof.
  intros Hd Hbig. rewrite (run_oversized _ _ _ _ Hd Hbig).
  repeat split. by repeat constructor.
Qed.

Lemma oversized_rejected_before_work_witness :
  Z.of_nat (length (replicate (3 * Z.to_nat 3333333 + 2) x00)) = 10000001%Z ∧
  cli.events (@cli.run sample.succeeding
                ["prove_chunk_entropy.py"; sample.oversized_b64; "test-1"]%string)
    = [cli.Stderr "Error: Chunk too large for processing"].
Proof.
  split; [exact length_oversized|].
  refine (proj1 (proj2 (@oversized_rejected_before_work sample.succeeding
                          _ _ _ _ _ _))).
  - exact (b64decode_zeros (Z.to_nat 3333333)).
  - rewrite length_oversized. lia.
Defined.

(** C8.  Every entry of the matrix returned by [chunk_to_density] is
    non-negative, for every non-empty chunk, on the direct path and on
    the perturbation path alike; the divisor is positive on both. *)
Theorem chunk_to_density_nonneg (chunk : bytes) :
  chunk ≠ [] →
  0 < divisor chunk ∧
  ∀ r c v, np.item (chunk_to_density chunk) r c = Some v → 0 <= v.
Proof.
  intros Hne. split; [by apply divisor_pos|].
  intros r c v. by apply density_entry_nonneg.
Qed.

Lemma chunk_to_density_nonneg_witness :
  [x00; x07; x09; x00] ≠ ([] : bytes) ∧
  0 < divisor [x00; x07; x09; x00].
Proof.
  assert ([x00; x07; x09; x00] ≠ ([] : bytes)) as Hne by discriminate.
  split; [exact Hne|].
  exact (proj1 (chunk_to_density_nonneg [x00; x07; x09; x00] Hne)).
Defined.

(** C9.  The perturbation is applied exactly when every byte of the chunk
    that lies on the diagonal, at an index [k * (size + 1)] below the
    length, is zero, whatever the other bytes are.  When it is applied the
    matrix that is divided holds the chunk's bytes with 1e-6 added on the
    diagonal and to no other entry, and the divisor is [size] times 1e-6;
    when some diagonal byte is not zero the matrix is left as it was
    filled and the divisor is the sum of the diagonal bytes.  On both paths
    the result is that matrix divided by that divisor, and a non-empty chunk
    with a zero diagonal yields a matrix of trace 1. *)
Theorem perturbation_iff_zero_diagonal (chunk : bytes) :
  let size := np.ceil_sqrt (length chunk) in
  let zero_diagonal :=
    ∀ k i b, i = (k * (size + 1))%nat → chunk !! i = Some b → b = x00 in
  let byte_at r c := from_option byte_value 0 (chunk !! (r * size + c)%nat) in
  (needs_perturbation chunk = true ↔ zero_diagonal) ∧
  (chunk ≠ [] → zero_diagonal →
   fst (stabilized chunk) =
     np.add (fill_matrix chunk) (np.scale (np.eye size) epsilon) ∧
   np.trace (chunk_to_density chunk) == 1) ∧
  (zero_diagonal →
   divisor chunk == inject_Z (Z.of_nat size) * (1 # 1000000) ∧
   ∀ r c, (r < size)%nat → (c < size)%nat →
     np.item (fst (stabilized chunk)) r c =
       Some (byte_at r c + (if Nat.eqb r c then 1 else 0) * (1 # 1000000))) ∧
  (¬ zero_diagonal →
   stabilized chunk = (fill_matrix chunk, np.trace (fill_matrix chunk)) ∧
   divisor chunk = np.sum ((λ k, byte_at k k) <$> seq 0 size) ∧
   1 <= divisor chunk ∧
   ∀ r c, (r < size)%nat → (c < size)%nat →
     np.item (fst (stabilized chunk)) r c = Some (byte_at r c)) ∧
  square size (fst (stabilized chunk)) ∧
  chunk_to_density chunk = np.divide (fst (stabilized chunk)) (divisor chunk).
Proof.
  intros size zero_diagonal byte_at.
  assert (needs_perturbation chunk = true ↔ zero_diagonal) as Hiff.
  { rewrite needs_perturbation_diagonal. unfold zero_diagonal, diagonal_byte.
    fold size. split.
    - intros Hall k i b -> Hb. apply (Hall k b).
      by replace (k * size + k)%nat with (k * (size + 1))%nat by lia.
    - intros Hall k b Hb. apply (Hall k _ b eq_refl).
      by replace (k * (size + 1))%nat with (k * size + k)%nat by lia. }
  split; [exact Hiff|].
  split; [|split; [|split; [|split]]].
  - intros Hne Hdiag. apply Hiff in Hdiag. split.
    + by apply stabilized_perturbed.
    + by apply trace_chunk_to_density.
  - intros Hdiag. apply Hiff in Hdiag. split.
    + exact (perturbed_divisor chunk Hdiag).
    + intros r c Hr Hc. rewrite (stabilized_perturbed _ Hdiag).
      rewrite (item_perturbed _ _ r c (fill_matrix_square chunk) Hr Hc).
      by rewrite (get_fill_matrix chunk r c Hr Hc).
  - intros Hdiag.
    assert (needs_perturbation chunk = false) as Hp.
    { destruct (needs_perturbation chunk); [|done].
      exfalso. by apply Hdiag, Hiff. }
    destruct (direct_divisor chunk Hp) as [Hdiv Hone].
    split; [by apply stabilized_direct|].
    split; [|split; [exact Hone|]].
    + rewrite Hdiv. unfold np.trace. by rewrite diagonal_fill_matrix.
    + intros r c Hr Hc. rewrite (stabilized_direct _ Hp). simpl.
      by apply fill_matrix_item.
  - apply stabilized_square.
  - apply chunk_to_density_unfold.
Qed.

(** A non-zero chunk whose diagonal bytes (indices 0 and 3) are zero: the
    perturbation is applied and leaves the bytes 7 and 9 off the diagonal. *)
Lemma perturbation_iff_zero_diagonal_witness :
  needs_perturbation [x00; x07; x09; x00] = true ∧
  np.trace (chunk_to_density [x00; x07; x09; x00]) == 1 ∧
  divisor [x00; x07; x09; x00] == 2 # 1000000 ∧
  np.item (fst (stabilized [x00; x07; x09; x00])) 0 1 = Some (7 + 0 * (1 # 1000000)) ∧
  np.item (fst (stabilized [x00; x07; x09; x00])) 1 1 = Some (0 + 1 * (1 # 1000000)).
Proof.
  assert (∀ k i b, i = (k * (2 + 1))%nat →
                   [x00; x07; x09; x00] !! i = Some b → b = x00) as Hdiag.
  { intros k i b -> Hb. simpl in Hb.
    destruct k as [|[|k]]; simpl in Hb; [by injection Hb..|discriminate Hb]. }
  split; [reflexivity|].
  destruct (perturbation_iff_zero_diagonal [x00; x07; x09; x00])
    as (_ & Htrace & Hpath & _).
  destruct (Hpath Hdiag) as [Hdiv Hitem].
  split; [apply Htrace; [discriminate|exact Hdiag]|].
  split; [exact Hdiv|].
  split; [apply (Hitem 0%nat 1%nat)|apply (Hitem 1%nat 1%nat)]; vm_compute; lia.
Defined.

(** C10.  [chunk_to_density] is deterministic: two calls on equal byte
    sequences, from any two stores of arrays, return arrays that are
    identical entry by entry, and neither call changes an array that was
    there before it. *)
Theorem chunk_to_density_deterministic (c1 c2 : bytes) (h1 h2 : inplace.store) :
  c1 = c2 →
  let r1 := inplace.chunk_to_density c1 h1 in
  let r2 := inplace.chunk_to_density c2 h2 in
  (∀ r c, np.item (inplace.load r1.1 r1.2) r c
          = np.item (inplace.load r2.1 r2.2) r c) ∧
  inplace.load r1.1 r1.2 = chunk_to_density c1 ∧
  inplace.load r2.1 r2.2 = chunk_to_density c2 ∧
  (∀ old, (old < length h1)%nat → inplace.load old r1.2 = inplace.load old h1) ∧
  (∀ old, (old < length h2)%nat → inplace.load old r2.2 = inplace.load old h2).
Proof.
  intros <- r1 r2.
  destruct (chunk_to_density_store c1 h1) as [Hv1 Hf1].
  destruct (chunk_to_density_store c1 h2) as [Hv2 Hf2].
  fold r1 in Hv1, Hf1. fold r2 in Hv2, Hf2.
  repeat split; try done.
  intros r c. by rewrite Hv1, Hv2.
Qed.

Lemma chunk_to_density_deterministic_witness :
  inplace.load (inplace.chunk_to_density [x02; x05; x06] []).1
               (inplace.chunk_to_density [x02; x05; x06] []).2
  = inplace.load (inplace.chunk_to_density [x02; x05; x06] [[[1]]; []]).1
                 (inplace.chunk_to_density [x02; x05; x06] [[[1]]; []]).2.
Proof.
  destruct (chunk_to_density_deterministic [x02; x05; x06] [x02; x05; x06]
              [] [[[1]]; []] eq_refl) as (_ & H1 & H2 & _).
  exact (eq_trans H1 (eq_sym H2)).
Defined.

(** * Further properties of the encoder *)

Section Flatten.

Lemma concat_lookup (size : nat) (m : np.ndarray) : ∀ r c,
  Forall (λ row : list Q, length row = size) m → (c < size)%nat →
  concat m !! (r * size + c)%nat = np.item m r c.
Proof.
  unfold np.item.
  induction m as [|row m IH]; intros r c Hrows Hc; [done|].
  apply Forall_cons in Hrows as [Hrow Hrows]. simpl.
  destruct r as [|r]; simpl.
  - by rewrite lookup_app_l by lia.
  - rewrite lookup_app_r by lia.
    replace (size + r * size + c - length row)%nat with (r * size + c)%nat
      by lia.
    by apply IH.
Qed.

Lemma length_concat_square (size : nat) (m : np.ndarray) :
  square size m → length (concat m) = (size * size)%nat.
Proof.
  intros [Hlen Hrows]. rewrite <- Hlen at 1. clear Hlen.
  induction Hrows as [|row m Hrow _ IH]; [done|].
  simpl. rewrite length_app, IH, Hrow. lia.
Qed.

Lemma flatten_lookup (size : nat) (m : np.ndarray) i :
  square size m → (i < size * size)%nat →
  np.flatten m !! i = np.item m (i / size) (i mod size).
Proof.
  intros Hsq Hi. destruct (index_in_range size i Hi) as [Hr Hc].
  rewrite <- (concat_lookup size m _ _ (proj2 Hsq) Hc).
  unfold np.flatten. f_equal.
  rewrite (Nat.div_mod_eq i size) at 1. lia.
Qed.

End Flatten.

(** The filled matrix, flattened. *)
Lemma flatten_filled (chunk : bytes) :
  let n := length chunk in
  let size := np.ceil_sqrt n in
  np.flatten (fill_matrix chunk)
    = (byte_value <$> chunk) ++ replicate (size * size - n) 0.
Proof.
  intros n size.
  pose proof (ceil_sqrt_upper n) as Hup. fold size in Hup.
  apply list_eq. intros i.
  destruct (decide (i < size * size)%nat) as [Hi|Hi].
  - rewrite (flatten_lookup size) by (done || apply fill_matrix_square).
    destruct (index_in_range size i Hi) as [Hr Hc].
    rewrite (fill_matrix_item chunk _ _ Hr Hc). fold n size.
    replace (i / size * size + i mod size)%nat with i
      by (rewrite (Nat.div_mod_eq i size) at 1; lia).
    destruct (decide (i < n)%nat) as [Hn|Hn].
    + rewrite lookup_app_l by by rewrite length_fmap.
      rewrite list_lookup_fmap.
      by destruct (lookup_lt_is_Some_2 chunk i Hn) as [b ->].
    + rewrite lookup_app_r by (rewrite length_fmap; fold n; lia).
      rewrite length_fmap, lookup_replicate_2 by (fold n; lia).
      by rewrite lookup_ge_None_2 by (fold n; lia).
  - rewrite !lookup_ge_None_2; [done| |].
    + rewrite length_app, length_fmap, length_replicate. fold n. lia.
    + unfold np.flatten.
      rewrite (length_concat_square size) by apply fill_matrix_square. lia.
Qed.

(** X1.  Flattened row-major, the filled matrix is the chunk itself, byte
    by byte, followed by zeros up to [size * size] entries; the zeros are
    fewer than [2 * size - 1]. *)
Theorem flatten_fill_matrix (chunk : bytes) :
  let n := length chunk in
  let size := np.ceil_sqrt n in
  np.flatten (fill_matrix chunk)
    = (byte_value <$> chunk) ++ replicate (size * size - n) 0 ∧
  (n ≤ size * size)%nat ∧
  (size * size - n ≤ 2 * size - 2)%nat.
Proof.
  intros n size.
  pose proof (ceil_sqrt_upper n) as Hup. fold size in Hup.
  split; [apply flatten_filled|]. split; [exact Hup|].
  destruct (decide (n = 0)%nat) as [Hz|Hz].
  - unfold size. rewrite Hz. simpl. lia.
  - pose proof (ceil_sqrt_spec n ltac:(lia)) as [Hlow _]. fold size in Hlow.
    nia.
Qed.

(** X2.  On the diagonal the returned matrix holds numbers between 0 and 1,
    for every non-empty chunk. *)
Theorem diagonal_in_unit_interval (chunk : bytes) (k : nat) :
  chunk ≠ [] →
  (k < np.ceil_sqrt (length chunk))%nat →
  0 <= np.get (chunk_to_density chunk) k k <= 1.
Proof.
  intros Hne Hk. pose proof (divisor_pos chunk Hne) as Hd.
  rewrite get_chunk_to_density.
  pose proof (stabilized_nonneg chunk) as Hpos.
  pose proof (stabilized_square chunk) as Hsq.
  destruct (square_item _ _ k k Hsq Hk Hk) as [v Hv].
  assert (0 <= v) as Hv0 by exact (proj1 (Forall_entries _ _) Hpos k k v Hv).
  assert (np.get (stabilized chunk).1 k k = v) as Hget
    by (unfold np.get; by rewrite Hv).
  assert (v <= divisor chunk) as Hle.
  { rewrite <- trace_stabilized. unfold np.trace.
    apply (elem_le_sum _ k).
    - unfold np.diagonal. apply Forall_fmap, Forall_forall. intros j _. simpl.
      unfold np.get. destruct (np.item _ j j) as [x|] eqn:Hx; simpl; [|lra].
      exact (proj1 (Forall_entries _ _) Hpos j j x Hx).
    - unfold np.diagonal. rewrite list_lookup_fmap, (proj1 Hsq).
      rewrite lookup_seq_lt by done. simpl. by rewrite Hget. }
  rewrite Hget. split.
  - apply Qle_shift_div_l; [done|]. lra.
  - apply Qle_shift_div_r; [done|]. lra.
Qed.

Lemma diagonal_in_unit_interval_witness :
  0 <= np.get (chunk_to_density [x02; x05; x06]) 0 0 <= 1.
Proof.
  apply (diagonal_in_unit_interval [x02; x05; x06] 0); [discriminate|].
  vm_compute. lia.
Defined.



(** X4.  On the direct path the divisor is a whole number, at least 1; the
    flattened result is the chunk, each byte divided by the divisor,
    followed by zeros; and no entry exceeds 255. *)
Theorem direct_entries (chunk : bytes) :
  needs_perturbation chunk = false →
  let size := np.ceil_sqrt (length chunk) in
  (∃ z : Z, divisor chunk == inject_Z z ∧ (1 ≤ z ≤ 255 * Z.of_nat size)%Z) ∧
  np.flatten (chunk_to_density chunk)
    = ((λ b, byte_value b / divisor chunk) <$> chunk)
      ++ replicate (size * size - length chunk) (0 / divisor chunk) ∧
  ∀ r c v, np.item (chunk_to_density chunk) r c = Some v → 0 <= v <= 255.
Proof.
  intros Hp size.
  destruct (direct_divisor chunk Hp) as [Hd Hone].
  destruct (trace_fill_whole chunk) as (z & Hz & Hb). fold size in Hb.
  split; [|split].
  - exists z. rewrite Hd. split; [exact Hz|].
    rewrite Hd, Hz in Hone. change 1 with (inject_Z 1) in Hone.
    rewrite <- Zle_Qle in Hone. lia.
  - rewrite chunk_to_density_unfold, flatten_divide, (stabilized_direct _ Hp).
    simpl. rewrite (flatten_filled chunk).
    by rewrite fmap_app, fmap_replicate, <- list_fmap_compose.
  - intros r c v. rewrite chunk_to_density_unfold, item_divide.
    rewrite (stabilized_direct _ Hp). simpl.
    destruct (np.item _ r c) as [x|] eqn:Hx; simpl; [|done].
    intros [= <-].
    destruct (item_in_range _ _ _ _ _ (fill_matrix_square chunk) Hx) as [Hr Hc].
    rewrite (fill_matrix_item chunk r c Hr Hc) in Hx. injection Hx as <-.
    assert (0 <= from_option byte_value 0 (chunk !! (r * size + c)%nat) <= 255)
      as Hx.
    { destruct (chunk !! _) as [b|]; simpl; [apply byte_value_range|lra]. }
    fold size. fold (divisor chunk) in *. split.
    + apply Qle_shift_div_l; lra.
    + apply Qle_shift_div_r; [lra|]. nra.
Qed.

Lemma direct_entries_witness :
  np.flatten (chunk_to_density [x02; x05; x06])
  = [2 / 2; 5 / 2; 6 / 2; 0 / 2].
Proof.
  exact (proj1 (proj2 (direct_entries [x02; x05; x06] eq_refl))).
Defined.

Section Collisions.

Lemma square_ext size (m m' : np.ndarray) :
  square size m → square size m' →
  (∀ r c, (r < size)%nat → (c < size)%nat → np.item m r c = np.item m' r c) →
  m = m'.
Proof.
  intros Hsq Hsq' Hitems. apply list_eq. intros r.
  destruct (decide (r < size)%nat) as [Hr|Hr].
  - destruct (lookup_lt_is_Some_2 m r) as [row Hrow]; [by rewrite (proj1 Hsq)|].
    destruct (lookup_lt_is_Some_2 m' r) as [row' Hrow'];
      [by rewrite (proj1 Hsq')|].
    rewrite Hrow, Hrow'. f_equal. apply list_eq. intros c.
    destruct (decide (c < size)%nat) as [Hc|Hc].
    + specialize (Hitems r c Hr Hc). unfold np.item in Hitems.
      by rewrite Hrow, Hrow' in Hitems.
    + rewrite !lookup_ge_None_2; [done| |].
      * rewrite (square_row _ _ _ _ Hsq' Hrow'). lia.
      * rewrite (square_row _ _ _ _ Hsq Hrow). lia.
  - rewrite !lookup_ge_None_2; [done| |].
    + rewrite (proj1 Hsq'). lia.
    + rewrite (proj1 Hsq). lia.
Qed.

Lemma get_outside size (m : np.ndarray) r c :
  square size m → ¬ (r < size ∧ c < size)%nat → np.get m r c = 0.
Proof.
  intros Hsq Hout. unfold np.get.
  destruct (np.item m r c) as [v|] eqn:Hv; [|done].
  destruct Hout. by apply (item_in_range size m r c v).
Qed.

Lemma sum_scaled {A} (f : A → Q) a (l : list A) :
  np.sum ((λ k, a * f k) <$> l) == a * np.sum (f <$> l).
Proof.
  induction l as [|x l IH].
  - unfold np.sum. simpl. ring.
  - rewrite !fmap_cons, !sum_cons, IH. ring.
Qed.

End Collisions.

(** X5.  Zero bytes at the end of a chunk do not show in the result as long
    as they leave [size] as it is: the chunk with them and the chunk
    without them give the same matrix. *)
Theorem trailing_zeros_invisible (chunk : bytes) (k : nat) :
  np.ceil_sqrt (length chunk + k) = np.ceil_sqrt (length chunk) →
  chunk_to_density (chunk ++ replicate k x00) = chunk_to_density chunk.
Proof.
  intros Hsize.
  assert (length (chunk ++ replicate k x00) = (length chunk + k)%nat) as Hlen
    by by rewrite length_app, length_replicate.
  assert (fill_matrix (chunk ++ replicate k x00) = fill_matrix chunk) as Hfill.
  { apply (square_ext (np.ceil_sqrt (length chunk))).
    - rewrite <- Hsize, <- Hlen. apply fill_matrix_square.
    - apply fill_matrix_square.
    - intros r c Hr Hc.
      rewrite (fill_matrix_item chunk r c Hr Hc).
      rewrite fill_matrix_item by by rewrite Hlen, Hsize.
      rewrite Hlen, Hsize. f_equal.
      set (j := (r * np.ceil_sqrt (length chunk) + c)%nat).
      destruct (decide (j < length chunk)%nat) as [Hj|Hj].
      + by rewrite lookup_app_l.
      + rewrite lookup_app_r, (lookup_ge_None_2 chunk) by lia.
        destruct (replicate k x00 !! _) as [b|] eqn:Hb; [|done].
        by apply lookup_replicate in Hb as [-> _]. }
  unfold chunk_to_density, stabilized, needs_perturbation.
  by rewrite Hfill, Hlen, Hsize.
Qed.

Lemma trailing_zeros_invisible_witness :
  chunk_to_density [x02; x05; x00; x00] = chunk_to_density [x02; x05].
Proof. exact (trailing_zeros_invisible [x02; x05] 2 eq_refl). Defined.

(** X6.  On the direct path the result keeps the proportions of the bytes
    and not their size: a chunk whose bytes are [k] times those of another
    gives the same entries. *)
Theorem proportional_chunks_collide (c1 c2 : bytes) (k : Z) :
  (0 < k)%Z →
  Forall2 (λ b2 b1, Z.of_N (Byte.to_N b2) = (k * Z.of_N (Byte.to_N b1))%Z)
    c2 c1 →
  needs_perturbation c1 = false →
  needs_perturbation c2 = false ∧
  ∀ r c, np.get (chunk_to_density c2) r c == np.get (chunk_to_density c1) r c.
Proof.
  intros Hk Hprop Hp1.
  pose proof (Forall2_length _ _ _ Hprop) as Hlen.
  set (size := np.ceil_sqrt (length c1)).
  assert (np.ceil_sqrt (length c2) = size) as Hsize by by rewrite Hlen.
  assert (∀ r c, (r < size)%nat → (c < size)%nat →
            np.get (fill_matrix c2) r c
              == inject_Z k * np.get (fill_matrix c1) r c) as Hfill.
  { intros r c Hr Hc.
    rewrite (get_fill_matrix c1 r c Hr Hc).
    rewrite get_fill_matrix by by rewrite Hsize.
    rewrite Hsize. fold size.
    pose proof (proj1 (Forall2_lookup _ _ _) Hprop (r * size + c)%nat) as Hb.
    destruct Hb as [b2 b1 Hb|]; simpl; [|ring].
    unfold byte_value. rewrite Hb, inject_Z_mult. reflexivity. }
  assert (np.trace (fill_matrix c2) == inject_Z k * np.trace (fill_matrix c1))
    as Htrace.
  { unfold np.trace, np.diagonal.
    rewrite (proj1 (fill_matrix_square c2)), (proj1 (fill_matrix_square c1)).
    rewrite Hsize. fold size. rewrite <- sum_scaled.
    apply sum_ext. intros j Hj. apply elem_of_seq in Hj.
    apply Hfill; lia. }
  destruct (direct_divisor c1 Hp1) as [Hd1 Hone].
  assert (1 <= inject_Z k) as Hk1.
  { change 1 with (inject_Z 1). rewrite <- Zle_Qle. lia. }
  assert (needs_perturbation c2 = false) as Hp2.
  { destruct (needs_perturbation c2) eqn:Hp2; [|done].
    apply needs_perturbation_trace in Hp2.
    rewrite Htrace, <- Hd1 in Hp2. unfold trace_threshold in Hp2.
    assert (1 <= inject_Z k * divisor c1) by nra.
    exfalso.
    assert (¬ 1 < 1 # 10000000000) as Hno by (intros Hx; by vm_compute in Hx).
    apply Hno. lra. }
  split; [exact Hp2|]. intros r c.
  destruct (direct_divisor c2 Hp2) as [Hd2 _].
  rewrite !get_chunk_to_density.
  rewrite (stabilized_direct _ Hp1), (stabilized_direct _ Hp2). simpl.
  destruct (decide (r < size ∧ c < size)%nat) as [[Hr Hc]|Hout].
  - rewrite Hd1, Hd2, Htrace, (Hfill r c Hr Hc).
    rewrite Hd1 in Hone. field. split; lra.
  - rewrite (get_outside size _ r c (fill_matrix_square c1) Hout).
    rewrite (get_outside size (fill_matrix c2) r c); [|by rewrite <- Hsize; apply fill_matrix_square|done].
    unfold Qdiv. ring.
Qed.

Lemma proportional_chunks_collide_witness :
  np.get (chunk_to_density [x02; x04; x06]) 0 1
  == np.get (chunk_to_density [x01; x02; x03]) 0 1.
Proof.
  apply (proportional_chunks_collide [x01; x02; x03] [x02; x04; x06] 2).
  - lia.
  - repeat constructor.
  - reflexivity.
Defined.

(** X7.  A chunk of one byte encodes to the 1 by 1 matrix with entry 1,
    whatever the byte. *)
Theorem single_byte_density (b : byte) :
  square 1 (chunk_to_density [b]) ∧
  np.get (chunk_to_density [b]) 0 0 == 1.
Proof.
  split; [apply (chunk_to_density_square [b])|].
  pose proof (trace_chunk_to_density [b] ltac:(discriminate)) as Ht.
  unfold np.trace, np.diagonal in Ht.
  rewrite (proj1 (chunk_to_density_square [b])) in Ht.
  change (np.ceil_sqrt (length [b])) with 1%nat in Ht.
  cbn [seq fmap list_fmap] in Ht. rewrite sum_cons in Ht.
  change (np.sum []) with 0 in Ht. lra.
Qed.

(** * Further properties of the command line *)

Section Runs.

Import cli.
Context `{Collaborators}.

Ltac run_unfold :=
  unfold run, main, guarded, process, try_except, emit, sys_exit, returns,
    exit_code, events, mbind, mret, py_bind, py_ret; simpl.

(** The run on an admitted chunk, stage by stage. *)
Lemma run_admitted_stages prog chunk_b64 chunk_id chunk_bytes :
  b64decode chunk_b64 = inr chunk_bytes →
  (Z.of_nat (length chunk_bytes) ≤ size_cap)%Z →
  let density := chunk_to_density chunk_bytes in
  let vector := np.flatten density in
  let start := [Called_chunk_to_density chunk_bytes;
                Called_QuantumZKP (length vector)] in
  run [prog; chunk_b64; chunk_id] =
    match QuantumZKP (length vector) with
    | inl e => (SystemExit 2, start ++ [Stderr ("Error: " ++ e)])
    | inr z =>
        match prove_vector_knowledge z vector chunk_id with
        | inl e =>
            (SystemExit 2,
             start ++ [Called_prove_vector_knowledge vector chunk_id;
                       Stderr ("Error: " ++ e)])
        | inr cp =>
            match calculate_entropy density with
            | inl e =>
                (SystemExit 2,
                 start ++ [Called_prove_vector_knowledge vector chunk_id;
                           Called_calculate_entropy density;
                           Stderr ("Error: " ++ e)])
            | inr entropy =>
                match dumps_result chunk_id entropy (fst cp) (snd cp) with
                | inl e =>
                    (SystemExit 2,
                     start ++ [Called_prove_vector_knowledge vector chunk_id;
                               Called_calculate_entropy density;
                               Stderr ("Error: " ++ e)])
                | inr text =>
                    (Normal tt,
                     start ++ [Called_prove_vector_knowledge vector chunk_id;
                               Called_calculate_entropy density;
                               Stdout text])
                end
            end
        end
    end.
Proof.
  intros Hd Hlen. run_unfold. rewrite Hd.
  apply Z.ltb_ge in Hlen. rewrite Hlen.
  destruct (QuantumZKP _) as [e|z]; [done|].
  destruct (prove_vector_knowledge _ _ _) as [e|cp]; [done|].
  destruct (calculate_entropy _) as [e|entropy]; [done|].
  by destruct (dumps_result _ _ _ _) as [e|text].
Qed.


End Runs.





Section Validation.

Import cli.
Context `{Collaborators}.

(** The encoder is called at most once in a run, on the decoded chunk. *)
Lemma encoder_call_admitted prog chunk_b64 chunk_id chunk_bytes c :
  b64decode chunk_b64 = inr chunk_bytes →
  (Z.of_nat (length chunk_bytes) ≤ size_cap)%Z →
  Called_chunk_to_density c ∈ events (run [prog; chunk_b64; chunk_id]) ↔
  c = chunk_bytes.
Proof.
  intros Hd Hok. rewrite (run_admitted_stages _ _ _ _ Hd Hok).
  unfold events.
  assert (∀ rest : list event,
            Forall (λ ev, ∀ c', ev ≠ Called_chunk_to_density c') rest →
            Called_chunk_to_density c ∈ Called_chunk_to_density chunk_bytes :: rest
            ↔ c = chunk_bytes) as Hhead.
  { intros rest Hrest. rewrite elem_of_cons. split.
    - intros [[= ->]|Hin]; [done|].
      by destruct (proj1 (Forall_forall _ _) Hrest _ Hin c).
    - intros ->. by left. }
  destruct (QuantumZKP _) as [e|z]; simpl;
    [apply Hhead; by repeat constructor|].
  destruct (prove_vector_knowledge _ _ _) as [e|cp]; simpl;
    [apply Hhead; by repeat constructor|].
  destruct (calculate_entropy _) as [e|entropy]; simpl;
    [apply Hhead; by repeat constructor|].
  destruct (dumps_result _ _ _ _) as [e|text]; simpl;
    apply Hhead; by repeat constructor.
Qed.

End Validation.

(** X11.  Validation comes before any work: [chunk_to_density] is called on
    a chunk exactly when there are two arguments, the first decodes to
    that chunk and the chunk has at most 10,000,000 bytes; and the exit
    code is 1, 3 or 4 exactly when no collaborator was called at all. *)
Theorem work_only_after_validation `{cli.Collaborators} (argv : list string) :
  (∀ chunk_bytes,
     cli.Called_chunk_to_density chunk_bytes ∈ cli.events (cli.run argv) ↔
     ∃ prog chunk_b64 chunk_id,
       argv = [prog; chunk_b64; chunk_id] ∧
       cli.b64decode chunk_b64 = inr chunk_bytes ∧
       (Z.of_nat (length chunk_bytes) ≤ 10000000)%Z) ∧
  (cli.exit_code (cli.run argv) ∈ [1; 3; 4]%Z ↔
   Forall (λ ev, cli.is_work ev = false) (cli.events (cli.run argv))).
Proof.
  assert (∀ text c, cli.Called_chunk_to_density c ∉ [cli.Stderr text]) as Hnot.
  { intros text c Hin. apply list_elem_of_singleton in Hin. discriminate. }
  destruct (decide (length argv = 3%nat)) as [Hlen|Hlen]; cycle 1.
  { rewrite (run_wrong_count argv Hlen). split.
    - intros c. split; [by intros ?%Hnot|].
      intros (p & b & i & -> & _). by destruct Hlen.
    - split; [by repeat constructor|]. intros _. rewrite !elem_of_cons. tauto. }
  destruct argv as [|prog [|chunk_b64 [|chunk_id [|? ?]]]]; try done.
  destruct (cli.b64decode chunk_b64) as [e|chunk] eqn:Hd.
  { rewrite (run_invalid_base64 _ _ _ e Hd). split.
    - intros c. split; [by intros ?%Hnot|].
      intros (p & b & i & [= <- <- <-] & Hb & _). congruence.
    - split; [by repeat constructor|]. intros _. rewrite !elem_of_cons. tauto. }
  destruct (Z_lt_le_dec cli.size_cap (Z.of_nat (length chunk))) as [Hbig|Hok].
  { rewrite (run_oversized _ _ _ _ Hd Hbig). unfold cli.size_cap in Hbig. split.
    - intros c. split; [by intros ?%Hnot|].
      intros (p & b & i & [= <- <- <-] & Hb & Hle).
      rewrite Hd in Hb. injection Hb as <-. lia.
    - split; [by repeat constructor|]. intros _. rewrite !elem_of_cons. tauto. }
  split.
  - intros c. rewrite (encoder_call_admitted _ _ _ _ c Hd Hok). split.
    + intros ->. by exists prog, chunk_b64, chunk_id.
    + intros (p & b & i & [= <- <- <-] & Hb & _). congruence.
  - destruct (run_admitted prog chunk_b64 chunk_id chunk Hd Hok)
      as [Hcode [rest Hev]].
    rewrite Hcode, Hev. split.
    + rewrite !elem_of_cons, elem_of_nil.
      destruct (cli.internal_error chunk chunk_id); intros [|[|[|[]]]]; done.
    + intros Hall. apply Forall_cons in Hall as [Hwork _]. discriminate.
Qed.

Lemma length_flatten_density chunk :
  length (np.flatten (chunk_to_density chunk))
    = (np.ceil_sqrt (length chunk) * np.ceil_sqrt (length chunk))%nat.
Proof. apply length_concat_square, chunk_to_density_square. Qed.

(** X12.  For an admitted chunk the proof engine is created right after the
    encoder, with [dimensions = size * size], at most 3163 * 3163; when the
    prover is reached it gets the flattened matrix, of that length, and
    the chunk id as given on the command line. *)
Theorem engine_dimensions `{cli.Collaborators}
    (prog chunk_b64 chunk_id : string) (chunk_bytes : bytes) :
  cli.b64decode chunk_b64 = inr chunk_bytes →
  (Z.of_nat (length chunk_bytes) ≤ 10000000)%Z →
  let size := np.ceil_sqrt (length chunk_bytes) in
  (∃ rest, cli.events (cli.run [prog; chunk_b64; chunk_id])
             = cli.Called_chunk_to_density chunk_bytes
               :: cli.Called_QuantumZKP (size * size) :: rest) ∧
  (size ≤ 3163)%nat ∧
  ∀ vector id,
    cli.Called_prove_vector_knowledge vector id
      ∈ cli.events (cli.run [prog; chunk_b64; chunk_id]) →
    vector = np.flatten (chunk_to_density chunk_bytes) ∧
    length vector = (size * size)%nat ∧
    id = chunk_id.
Proof.
  intros Hd Hok size.
  rewrite (run_admitted_stages _ _ _ _ Hd Hok).
  rewrite (length_flatten_density chunk_bytes). fold size.
  assert (size ≤ 3163)%nat as Hsize.
  { destruct (decide (length chunk_bytes = 0)%nat) as [Hz|Hz].
    - unfold size. rewrite Hz. change (np.ceil_sqrt 0) with 0%nat. lia.
    - pose proof (ceil_sqrt_spec (length chunk_bytes) ltac:(lia)) as [Hlow _].
      fold size in Hlow. nia. }
  assert (∀ vector id (evs : list cli.event),
            Forall (λ ev, ev = cli.Called_prove_vector_knowledge
                                 (np.flatten (chunk_to_density chunk_bytes))
                                 chunk_id
                          ∨ ∀ v i, ev ≠ cli.Called_prove_vector_knowledge v i)
                   evs →
            cli.Called_prove_vector_knowledge vector id ∈ evs →
            vector = np.flatten (chunk_to_density chunk_bytes) ∧
            length vector = (size * size)%nat ∧ id = chunk_id) as Hprove.
  { intros vector id evs Hevs Hin.
    destruct (proj1 (Forall_forall _ _) Hevs _ Hin) as [[= -> ->]|Hno].
    - by rewrite length_flatten_density.
    - by destruct (Hno vector id). }
  unfold cli.events.
  destruct (cli.QuantumZKP _) as [e|z]; simpl.
  { split; [by eexists|]. split; [done|]. intros vector id.
    apply Hprove.
    repeat (apply Forall_cons; split; [first [by left|by right]|]).
    constructor. }
  destruct (cli.prove_vector_knowledge _ _ _) as [e|cp]; simpl.
  { split; [by eexists|]. split; [done|]. intros vector id.
    apply Hprove.
    repeat (apply Forall_cons; split; [first [by left|by right]|]).
    constructor. }
  destruct (cli.calculate_entropy _) as [e|entropy]; simpl.
  { split; [by eexists|]. split; [done|]. intros vector id.
    apply Hprove.
    repeat (apply Forall_cons; split; [first [by left|by right]|]).
    constructor. }
  destruct (cli.dumps_result _ _ _ _) as [e|text]; simpl.
  { split; [by eexists|]. split; [done|]. intros vector id.
    apply Hprove.
    repeat (apply Forall_cons; split; [first [by left|by right]|]).
    constructor. }
  split; [by eexists|]. split; [done|]. intros vector id.
  apply Hprove.
  repeat (apply Forall_cons; split; [first [by left|by right]|]).
  constructor.
Qed.

Lemma engine_dimensions_witness :
  ∃ rest,
    cli.events (@cli.run sample.succeeding
                  ["prove_chunk_entropy.py"; "AQEBAQ=="; "test-1"]%string)
    = cli.Called_chunk_to_density [x01; x01; x01; x01]
      :: cli.Called_QuantumZKP 4 :: rest.
Proof.
  refine (proj1 (@engine_dimensions sample.succeeding
                   "prove_chunk_entropy.py" "AQEBAQ==" "test-1"
                   [x01; x01; x01; x01] eq_refl _)).
  simpl. lia.
Defined.

(** * Properties of the key tools and of the prover wrapper *)

Ltac io_unfold :=
  unfold tools.verify, tools.sign, tools.generate_keys,
    tools.generate_keys_on, tools.kyber_tools,
    tools.qzkp_wrapper_main, tools.returns, tools.raise, tools.read_file,
    tools.write_file, tools.writable, tools.print,
    tools.print_stderr, tools.sys_exit,
    tools.exit_code, mbind, mret, tools.io_bind, tools.io_ret;
  simpl.

Section Verify.

Import tools.
Context `{Crypto}.

Lemma verify_wrong_count argv w :
  length argv ≠ 4%nat →
  verify argv w =
    (cli.SystemExit 1,
     World (files w) (stdout w)
       (stderr w ++ ["Usage: verify.py <message> <signature_hex> <public_key_file>"])).
Proof.
  intros Hlen. io_unfold.
  destruct (length argv =? 4)%nat eqn:E; [|done].
  by apply Nat.eqb_eq in E.
Qed.

(** The run of [verify.py] on three arguments, step by step. *)
Lemma verify_steps prog m s f w :
  verify [prog; m; s; f] w =
    match encode m with
    | inl e => (cli.Raised e, w)
    | inr msg =>
        match fromhex s with
        | inl e => (cli.Raised e, w)
        | inr sig =>
            match files w !! f with
            | None => (cli.Raised "FileNotFoundError", w)
            | Some pk =>
                match ml_dsa_verify pk msg sig with
                | inl e => (cli.Raised e, w)
                | inr true =>
                    (cli.Normal tt,
                     World (files w) (stdout w ++ ["OK"]) (stderr w))
                | inr false =>
                    (cli.SystemExit 1,
                     World (files w) (stdout w ++ ["FAIL"]) (stderr w))
                end
            end
        end
    end.
Proof.
  io_unfold.
  destruct (encode m) as [e|msg]; simpl; [done|].
  destruct (fromhex s) as [e|sig]; simpl; [done|].
  destruct (files w !! f) as [pk|]; simpl; [|done].
  destruct (ml_dsa_verify pk msg sig) as [e|[|]]; simpl; [done| |done].
  by destruct w.
Qed.

End Verify.

(** X13.  [verify.py] exits with 0 exactly when it has three arguments, the
    message encodes, the signature is hexadecimal, the key file exists and
    the scheme accepts the signature, and then it prints [OK]; every other
    run exits with 1; no run changes a file. *)
Theorem verify_accepts_iff `{tools.Crypto} (argv : list string) (w : tools.world) :
  (tools.exit_code (tools.verify argv w) = 0%Z ↔
   ∃ prog m s f msg sig pk,
     argv = [prog; m; s; f] ∧
     tools.encode m = inr msg ∧
     tools.fromhex s = inr sig ∧
     tools.files w !! f = Some pk ∧
     tools.ml_dsa_verify pk msg sig = inr true) ∧
  (tools.exit_code (tools.verify argv w) = 0%Z →
   tools.stdout (snd (tools.verify argv w)) = tools.stdout w ++ ["OK"%string]) ∧
  (tools.exit_code (tools.verify argv w) ≠ 0%Z →
   tools.exit_code (tools.verify argv w) = 1%Z) ∧
  tools.files (snd (tools.verify argv w)) = tools.files w.
Proof.
  destruct (decide (length argv = 4%nat)) as [Hlen|Hlen]; cycle 1.
  { rewrite (verify_wrong_count argv w Hlen). unfold tools.exit_code. simpl.
    split; [|done]. split; [done|].
    intros (prog & m & s & f & _ & _ & _ & -> & _). by destruct Hlen. }
  destruct argv as [|prog [|m [|s [|f [|? ?]]]]]; try done.
  rewrite verify_steps. unfold tools.exit_code.
  destruct (tools.encode m) as [e|msg] eqn:Hm; simpl.
  { split; [|done]. split; [done|].
    intros (? & ? & ? & ? & ? & ? & ? & [= <- <- <- <-] & ? & _). congruence. }
  destruct (tools.fromhex s) as [e|sig] eqn:Hs; simpl.
  { split; [|done]. split; [done|].
    intros (? & ? & ? & ? & ? & ? & ? & [= <- <- <- <-] & _ & ? & _).
    congruence. }
  destruct (tools.files w !! f) as [pk|] eqn:Hf; simpl; cycle 1.
  { split; [|done]. split; [done|].
    intros (? & ? & ? & ? & ? & ? & ? & [= <- <- <- <-] & _ & _ & ? & _).
    congruence. }
  destruct (tools.ml_dsa_verify pk msg sig) as [e|[|]] eqn:Hv; simpl.
  - split; [|done]. split; [done|].
    intros (? & ? & ? & ? & ? & ? & ? & [= <- <- <- <-] & ? & ? & ? & ?).
    congruence.
  - split; [|done]. split; [|done]. intros _.
    by exists prog, m, s, f, msg, sig, pk.
  - split; [|done]. split; [done|].
    intros (? & ? & ? & ? & ? & ? & ? & [= <- <- <- <-] & ? & ? & ? & ?).
    congruence.
Qed.

Section Sign.

Import tools.
Context `{Crypto}.

(** The run of [sign.py] on two arguments, step by step. *)
Lemma sign_steps prog m f w :
  sign [prog; m; f] w =
    match encode m with
    | inl e => (cli.Raised e, w)
    | inr msg =>
        match files w !! f with
        | None => (cli.Raised "FileNotFoundError", w)
        | Some sk =>
            match ml_dsa_sign sk msg with
            | inl e => (cli.Raised e, w)
            | inr sig =>
                (cli.Normal tt,
                 World (files w) (stdout w ++ [hex sig]) (stderr w))
            end
        end
    end.
Proof.
  io_unfold.
  destruct (encode m) as [e|msg]; simpl; [done|].
  destruct (files w !! f) as [sk|]; simpl; [|done].
  by destruct (ml_dsa_sign sk msg) as [e|sig].
Qed.

End Sign.

(** X14.  What [sign.py] prints is what [verify.py] takes: when the scheme
    accepts the signatures it makes with the key pair in the two files,
    and [bytes.fromhex] reads back what [bytes.hex] wrote, signing a
    message and verifying the printed line against the same message ends
    with [OK] and exit code 0. *)
Theorem sign_then_verify `{tools.Crypto}
    (prog prog' m sk_file pk_file : string) (sk pk msg sig : bytes)
    (w : tools.world) :
  tools.files w !! sk_file = Some sk →
  tools.files w !! pk_file = Some pk →
  tools.encode m = inr msg →
  tools.ml_dsa_sign sk msg = inr sig →
  tools.ml_dsa_verify pk msg sig = inr true →
  tools.fromhex (tools.hex sig) = inr sig →
  let signed := tools.sign [prog; m; sk_file] w in
  tools.exit_code signed = 0%Z ∧
  tools.stdout (snd signed) = tools.stdout w ++ [tools.hex sig] ∧
  let verified := tools.verify [prog'; m; tools.hex sig; pk_file] (snd signed) in
  tools.exit_code verified = 0%Z ∧
  tools.stdout (snd verified) = tools.stdout w ++ [tools.hex sig; "OK"%string].
Proof.
  intros Hsk Hpk Hm Hsign Hverify Hhex. simpl.
  rewrite sign_steps, Hm, Hsk, Hsign. simpl.
  split; [done|]. split; [done|].
  rewrite verify_steps, Hm, Hhex. simpl. rewrite Hpk, Hverify. simpl.
  split; [done|]. by rewrite <- app_assoc.
Qed.

Lemma sign_then_verify_witness :
  tools.stdout
    (snd (@tools.verify sample_tools.toy ["verify.py"; "hi"; "446869"; "pk"]%string
            (snd (@tools.sign sample_tools.toy ["sign.py"; "hi"; "sk"]%string
                    (tools.fresh {["sk"%string := [x44]; "pk"%string := [x44]]})))))
  = ["446869"; "OK"]%string.
Proof.
  apply (@sign_then_verify sample_tools.toy "sign.py" "verify.py" "hi" "sk" "pk"
           [x44] [x44] [x68; x69] [x44; x68; x69]
           (tools.fresh {["sk"%string := [x44]; "pk"%string := [x44]]}));
    reflexivity.
Defined.

(** The sample [fromhex] reads back what the sample [hex] writes. *)
Lemma sample_hex_round_trip (data : bytes) :
  sample_tools.fromhex (sample_tools.hex data) = inr data.
Proof.
  induction data as [|b data IH]; [done|].
  cbn [sample_tools.hex sample_tools.fromhex]. rewrite IH.
  by destruct b.
Qed.

Section GenerateKeys.

Import tools.
Context `{Crypto}.

(** The run of [generate_keys.py], step by step. *)
Lemma generate_keys_steps w :
  generate_keys w =
    let w0 := World (files w) (stdout w ++ [EmptyString]) (stderr w) in
    match kyber_keygen with
    | inl e => (cli.Raised e, w0)
    | inr kyber =>
        match ml_dsa_keygen with
        | inl e => (cli.Raised e, w0)
        | inr dilithium =>
            (cli.Normal tt,
             World (<["dilithium_private.key"%string := snd dilithium]>
                      (<["dilithium_public.key"%string := fst dilithium]>
                         (<["kyber_private.key"%string := snd kyber]>
                            (<["kyber_public.key"%string := fst kyber]>
                               (files w)))))
                   (stdout w ++ [EmptyString]) (stderr w))
        end
    end.
Proof.
  io_unfold.
  destruct kyber_keygen as [e|kyber]; simpl; [done|].
  by destruct ml_dsa_keygen as [e|dilithium].
Qed.

(** The same on any disk: the writes stop at the first that fails. *)
Lemma generate_keys_on_steps disk w :
  generate_keys_on disk w =
    let w0 := World (files w) (stdout w ++ [EmptyString]) (stderr w) in
    let write name data (k : io unit) : io unit := λ v,
      match disk name data with
      | Written => k (World (<[name := data]> (files v)) (stdout v) (stderr v))
      | Failed e None => (cli.Raised e, v)
      | Failed e (Some partial) =>
          (cli.Raised e,
           World (<[name := partial]> (files v)) (stdout v) (stderr v))
      end in
    match kyber_keygen with
    | inl e => (cli.Raised e, w0)
    | inr kyber =>
        match ml_dsa_keygen with
        | inl e => (cli.Raised e, w0)
        | inr dilithium =>
            write "kyber_public.key"%string (fst kyber)
              (write "kyber_private.key"%string (snd kyber)
                 (write "dilithium_public.key"%string (fst dilithium)
                    (write "dilithium_private.key"%string (snd dilithium)
                       (λ v, (cli.Normal tt, v))))) w0
        end
    end.
Proof.
  io_unfold.
  destruct kyber_keygen as [e|kyber]; simpl; [done|].
  destruct ml_dsa_keygen as [e|dilithium]; simpl; [done|].
  destruct (disk _ kyber.1) as [|e1 [p1|]]; simpl; [|done..].
  destruct (disk _ kyber.2) as [|e2 [p2|]]; simpl; [|done..].
  destruct (disk _ dilithium.1) as [|e3 [p3|]]; simpl; [|done..].
  by destruct (disk _ dilithium.2) as [|e4 [p4|]].
Qed.

End GenerateKeys.

(** X15.  [generate_keys.py] generates both key pairs before it opens a
    file, so a key generation that raises ends the script with exit code 1
    and no file touched.  The four files are then written in order with
    nothing to undo an earlier write: a file holds what its own write left
    (its key when the write completed) exactly when every write before it
    completed, and is as before otherwise; no other file changes; and the
    exit code is 0 exactly when all four writes completed, 1 otherwise.  So
    a failing write can leave new keys beside old ones. *)
Theorem generate_keys_writes_in_order `{tools.Crypto}
    (disk : string → bytes → tools.write_result) (w : tools.world) :
  let run := tools.generate_keys_on disk w in
  match tools.kyber_keygen, tools.ml_dsa_keygen with
  | inr kyber, inr dilithium =>
      let planned := tools.planned_writes kyber dilithium in
      (tools.exit_code run = 0%Z ↔
       ∀ name data, (name, data) ∈ planned → disk name data = tools.Written) ∧
      (tools.exit_code run = 0%Z ∨ tools.exit_code run = 1%Z) ∧
      (∀ j name data, planned !! j = Some (name, data) →
         tools.files (snd run) !! name =
           if forallb (λ f, tools.is_written (disk f.1 f.2)) (take j planned)
           then tools.content_after (disk name data) data (tools.files w !! name)
           else tools.files w !! name) ∧
      (∀ name, name ∉ tools.key_files →
         tools.files (snd run) !! name = tools.files w !! name)
  | _, _ =>
      tools.exit_code run = 1%Z ∧ tools.files (snd run) = tools.files w
  end.
Proof.
  cbv zeta. unfold tools.planned_writes, tools.key_files, tools.exit_code.
  rewrite generate_keys_on_steps.
  destruct tools.kyber_keygen as [e|kyber]; simpl; [done|].
  destruct tools.ml_dsa_keygen as [e|dilithium]; simpl; [done|].
  destruct (disk "kyber_public.key"%string kyber.1) as [|e1 [p1|]] eqn:H1;
    [destruct (disk "kyber_private.key"%string kyber.2)
       as [|e2 [p2|]] eqn:H2;
     [destruct (disk "dilithium_public.key"%string dilithium.1)
        as [|e3 [p3|]] eqn:H3;
      [destruct (disk "dilithium_private.key"%string dilithium.2)
         as [|e4 [p4|]] eqn:H4|..]|..]|..];
    simpl.
  all: split; [|split; [first [by left|by right]|split]].
  all: try (split; [|done]; intros _ name data;
            rewrite !elem_of_cons, elem_of_nil;
            by intros [[= -> ->]|[[= -> ->]|[[= -> ->]|[[= -> ->]|[]]]]]).
  all: try (split; [done|]; intros Hall; exfalso;
            pose proof (Hall "kyber_public.key"%string kyber.1
                          ltac:(repeat constructor));
            pose proof (Hall "kyber_private.key"%string kyber.2
                          ltac:(repeat constructor));
            pose proof (Hall "dilithium_public.key"%string dilithium.1
                          ltac:(repeat constructor));
            pose proof (Hall "dilithium_private.key"%string dilithium.2
                          ltac:(repeat constructor));
            congruence).
  all: try (intros [|[|[|[|j]]]] name data Hj; simpl in Hj; [..|done];
            injection Hj as <- <-; simpl;
            rewrite ?H1, ?H2, ?H3, ?H4; simpl;
            rewrite ?lookup_insert_ne by done;
            by rewrite ?lookup_insert_eq).
  all: intros name Hname; rewrite !not_elem_of_cons in Hname;
    destruct Hname as (? & ? & ? & ? & _);
    by rewrite ?lookup_insert_ne by done.
Qed.

(** A disk that refuses [kyber_private.key]: the new public key is written
    beside the old private key, and the script ends with exit code 1. *)
Lemma generate_keys_writes_in_order_witness :
  tools.exit_code
    (@tools.generate_keys_on sample_tools.toy sample_tools.refusing
       sample_tools.old_keys) = 1%Z ∧
  tools.files (snd (@tools.generate_keys_on sample_tools.toy
                      sample_tools.refusing sample_tools.old_keys))
    !! "kyber_public.key"%string = Some [x4b] ∧
  tools.files (snd (@tools.generate_keys_on sample_tools.toy
                      sample_tools.refusing sample_tools.old_keys))
    !! "kyber_private.key"%string = Some [x02] ∧
  tools.files (snd (@tools.generate_keys_on sample_tools.toy
                      sample_tools.refusing sample_tools.old_keys))
    !! "dilithium_public.key"%string = None.
Proof.
  pose proof (@generate_keys_writes_in_order sample_tools.toy
                sample_tools.refusing sample_tools.old_keys)
    as (Hcode & Hexit & Hfile & _).
  split.
  { destruct Hexit as [Hzero|Hone]; [exfalso|exact Hone].
    pose proof (proj1 Hcode Hzero "kyber_private.key"%string [x4b]
                  ltac:(right; left)) as Hbad.
    discriminate Hbad. }
  split; [exact (Hfile 0%nat _ _ eq_refl)|].
  split; [exact (Hfile 1%nat _ _ eq_refl)|].
  exact (Hfile 2%nat _ _ eq_refl).
Defined.

(** X16.  The three tools fit together: after [generate_keys.py], signing a
    message with [dilithium_private.key] and verifying the printed line
    with [dilithium_public.key] ends with [OK] and exit code 0, when the
    scheme accepts the signatures made with the key pair it generated and
    [bytes.fromhex] reads back what [bytes.hex] wrote. *)
Theorem generate_sign_verify `{tools.Crypto}
    (m : string) (kyber dilithium : bytes * bytes) (msg sig : bytes)
    (w : tools.world) :
  tools.kyber_keygen = inr kyber →
  tools.ml_dsa_keygen = inr dilithium →
  tools.encode m = inr msg →
  tools.ml_dsa_sign (snd dilithium) msg = inr sig →
  tools.ml_dsa_verify (fst dilithium) msg sig = inr true →
  tools.fromhex (tools.hex sig) = inr sig →
  let generated := snd (tools.generate_keys w) in
  let signed :=
    snd (tools.sign ["sign.py"; m; "dilithium_private.key"]%string generated) in
  let verified :=
    tools.verify ["verify.py"; m; tools.hex sig; "dilithium_public.key"]%string
      signed in
  tools.exit_code verified = 0%Z ∧
  tools.stdout (snd verified)
    = tools.stdout w ++ [EmptyString; tools.hex sig; "OK"%string].
Proof.
  intros Hk Hd Hm Hsign Hverify Hhex generated signed verified.
  assert (tools.files generated !! "dilithium_private.key"%string
            = Some (snd dilithium) ∧
          tools.files generated !! "dilithium_public.key"%string
            = Some (fst dilithium) ∧
          tools.stdout generated = tools.stdout w ++ [EmptyString])
    as (Hsk & Hpk & Hout).
  { unfold generated. rewrite generate_keys_steps, Hk, Hd. simpl.
    split; [apply lookup_insert_eq|]. split; [|done].
    rewrite lookup_insert_ne by done. apply lookup_insert_eq. }
  assert (tools.files signed = tools.files generated ∧
          tools.stdout signed = tools.stdout generated ++ [tools.hex sig])
    as [Hfiles Hout'].
  { unfold signed. by rewrite sign_steps, Hm, Hsk, Hsign. }
  unfold verified. rewrite verify_steps, Hm, Hhex, Hfiles, Hpk, Hverify.
  simpl. split; [done|]. by rewrite Hout', Hout, <- !app_assoc.
Qed.

Lemma generate_sign_verify_witness :
  tools.exit_code
    (@tools.verify sample_tools.toy
       ["verify.py"; "hi"; "446869"; "dilithium_public.key"]%string
       (snd (@tools.sign sample_tools.toy
               ["sign.py"; "hi"; "dilithium_private.key"]%string
               (snd (@tools.generate_keys sample_tools.toy (tools.fresh ∅))))))
  = 0%Z.
Proof.
  apply (@generate_sign_verify sample_tools.toy "hi" ([x4b], [x4b])
           ([x44], [x44]) [x68; x69] [x44; x68; x69] (tools.fresh ∅));
    reflexivity.
Defined.

Section KyberTools.

Import tools.
Context `{Crypto}.

(** The run of [kyber_tools.py], step by step. *)
Lemma kyber_tools_steps w :
  kyber_tools w =
    match files w !! "kyber_public.key"%string with
    | None => (cli.Raised "FileNotFoundError", w)
    | Some public_key =>
        match files w !! "kyber_private.key"%string with
        | None => (cli.Raised "FileNotFoundError", w)
        | Some private_key =>
            match ml_kem_encaps public_key with
            | inl e => (cli.Raised e, w)
            | inr enc =>
                match ml_kem_decaps private_key (snd enc) with
                | inl e => (cli.Raised e, w)
                | inr shared_secret_dec =>
                    if bool_decide (fst enc = shared_secret_dec)
                    then (cli.Normal tt,
                          World (files w)
                            (stdout w ++ ["Encryption and decryption successful."])
                            (stderr w))
                    else (cli.Raised "AssertionError", w)
                end
            end
        end
    end.
Proof.
  io_unfold.
  destruct (files w !! "kyber_public.key"%string) as [pk|]; simpl; [|done].
  destruct (files w !! "kyber_private.key"%string) as [sk|]; simpl; [|done].
  destruct (ml_kem_encaps pk) as [e|enc]; simpl; [done|].
  destruct (ml_kem_decaps sk (snd enc)) as [e|dec]; simpl; [done|].
  by destruct (bool_decide _).
Qed.

End KyberTools.


(** X18.  [kyber_tools.py] finds the keys [generate_keys.py] wrote: run
    after it, it ends with exit code 0 and its success line when
    decapsulation with the generated private key returns the secret that
    encapsulation with the generated public key made. *)
Theorem generate_then_kyber_tools `{tools.Crypto}
    (kyber dilithium : bytes * bytes) (secret ciphertext : bytes)
    (w : tools.world) :
  tools.kyber_keygen = inr kyber →
  tools.ml_dsa_keygen = inr dilithium →
  tools.ml_kem_encaps (fst kyber) = inr (secret, ciphertext) →
  tools.ml_kem_decaps (snd kyber) ciphertext = inr secret →
  let generated := snd (tools.generate_keys w) in
  tools.exit_code (tools.kyber_tools generated) = 0%Z ∧
  tools.stdout (snd (tools.kyber_tools generated))
    = tools.stdout w
      ++ [EmptyString; "Encryption and decryption successful."%string].
Proof.
  intros Hk Hd Henc Hdec generated.
  assert (tools.files generated !! "kyber_public.key"%string
            = Some (fst kyber) ∧
          tools.files generated !! "kyber_private.key"%string
            = Some (snd kyber) ∧
          tools.stdout generated = tools.stdout w ++ [EmptyString])
    as (Hpk & Hsk & Hout).
  { unfold generated. rewrite generate_keys_steps, Hk, Hd. simpl.
    split; [|split; [|done]];
      rewrite !lookup_insert_ne by done; apply lookup_insert_eq. }
  rewrite kyber_tools_steps, Hpk, Hsk, Henc. simpl. rewrite Hdec.
  rewrite bool_decide_eq_true_2 by done. simpl.
  split; [done|]. by rewrite Hout, <- app_assoc.
Qed.

Lemma generate_then_kyber_tools_witness :
  tools.exit_code
    (@tools.kyber_tools sample_tools.toy
       (snd (@tools.generate_keys sample_tools.toy (tools.fresh ∅))))
  = 0%Z.
Proof.
  apply (@generate_then_kyber_tools sample_tools.toy ([x4b], [x4b])
           ([x44], [x44]) [x4b] [x4b] (tools.fresh ∅)); reflexivity.
Defined.

Section Wrapper.

Import tools.
Context `{ProverLib}.

Lemma wrapper_wrong_count argv w :
  length argv ≠ 3%nat →
  qzkp_wrapper_main argv w =
    (cli.SystemExit 1,
     World (files w) (stdout w)
       (stderr w ++ ["Usage: qzkp-wrapper.py <challenge> <private_key>"])).
Proof.
  intros Hlen. io_unfold.
  destruct (length argv =? 3)%nat eqn:E; [|done].
  by apply Nat.eqb_eq in E.
Qed.

(** The run of the wrapper on two arguments, step by step. *)
Lemma wrapper_steps prog challenge private_key w :
  qzkp_wrapper_main [prog; challenge; private_key] w =
    match Prover private_key with
    | inl e => (cli.Raised e, w)
    | inr p =>
        match create_proof p challenge with
        | inl e => (cli.Raised e, w)
        | inr proof =>
            match dumps proof with
            | inl e => (cli.Raised e, w)
            | inr text =>
                (cli.Normal tt,
                 World (files w) (stdout w ++ [text]) (stderr w))
            end
        end
    end.
Proof.
  io_unfold.
  destruct (Prover private_key) as [e|p]; simpl; [done|].
  destruct (create_proof p challenge) as [e|proof]; simpl; [done|].
  by destruct (dumps proof) as [e|text].
Qed.

End Wrapper.

(** X19.  [qzkp-wrapper.py] makes the prover from its second argument and
    the proof from its first.  It prints the proof and exits with 0 when
    all three steps return; with a wrong number of arguments it prints
    the usage on stderr and exits with 1; and an exception of a step is
    not handled: the run ends by it, exit code 1, with nothing printed by
    the script. *)
Theorem qzkp_wrapper_outcomes `{tools.ProverLib}
    (argv : list string) (w : tools.world) :
  let r := tools.qzkp_wrapper_main argv w in
  (length argv ≠ 3%nat →
   fst r = cli.SystemExit 1 ∧
   tools.stdout (snd r) = tools.stdout w ∧
   tools.stderr (snd r)
     = tools.stderr w ++ ["Usage: qzkp-wrapper.py <challenge> <private_key>"%string]) ∧
  (∀ prog challenge private_key,
     argv = [prog; challenge; private_key] →
     (∀ p proof text,
        tools.Prover private_key = inr p →
        tools.create_proof p challenge = inr proof →
        tools.dumps proof = inr text →
        tools.exit_code r = 0%Z ∧
        tools.stdout (snd r) = tools.stdout w ++ [text] ∧
        tools.stderr (snd r) = tools.stderr w) ∧
     (tools.exit_code r ≠ 0%Z →
      tools.exit_code r = 1%Z ∧ snd r = w ∧
      ∃ e, fst r = cli.Raised e ∧
           (tools.Prover private_key = inl e ∨
            (∃ p, tools.Prover private_key = inr p ∧
                  (tools.create_proof p challenge = inl e ∨
                   ∃ proof, tools.create_proof p challenge = inr proof ∧
                            tools.dumps proof = inl e))))).
Proof.
  simpl. split.
  - intros Hlen. by rewrite (wrapper_wrong_count argv w Hlen).
  - intros prog challenge private_key ->. rewrite wrapper_steps.
    unfold tools.exit_code. split.
    + intros p proof text Hp Hc Hd. by rewrite Hp, Hc, Hd.
    + destruct (tools.Prover private_key) as [e|p]; simpl.
      { intros _. split; [done|]. split; [done|]. exists e. split; [done|].
        by left. }
      destruct (tools.create_proof p challenge) as [e|proof] eqn:Hc; simpl.
      { intros _. split; [done|]. split; [done|]. exists e. split; [done|].
        right. exists p. split; [done|]. by left. }
      destruct (tools.dumps proof) as [e|text] eqn:Hd; simpl; [|done].
      intros _. split; [done|]. split; [done|]. exists e. split; [done|].
      right. exists p. split; [done|]. right. by exists proof.
Qed.

Lemma qzkp_wrapper_outcomes_witness :
  tools.stdout
    (snd (@tools.qzkp_wrapper_main sample_tools.toy_prover
            ["qzkp-wrapper.py"; "c-"; "key"]%string (tools.fresh ∅)))
  = ["c-key"%string].
Proof.
  exact (proj1 (proj2 (proj1 (proj2 (@qzkp_wrapper_outcomes sample_tools.toy_prover
           ["qzkp-wrapper.py"; "c-"; "key"]%string (tools.fresh ∅))
           _ _ _ eq_refl) _ _ _ eq_refl eq_refl eq_refl))).
Defined.

(** X20.  [sign.py] prints a signature, and exits with 0, exactly when it
    has two arguments, the message encodes, the key file exists and the
    scheme returns a signature; the line it prints is that signature in
    hexadecimal.  Every other run exits with 1 and leaves stdout as it
    was; no run changes a file. *)
Theorem sign_prints_iff `{tools.Crypto} (argv : list string) (w : tools.world) :
  let r := tools.sign argv w in
  (tools.exit_code r = 0%Z ↔
   ∃ prog m f msg sk sig,
     argv = [prog; m; f] ∧
     tools.encode m = inr msg ∧
     tools.files w !! f = Some sk ∧
     tools.ml_dsa_sign sk msg = inr sig ∧
     tools.stdout (snd r) = tools.stdout w ++ [tools.hex sig]) ∧
  (tools.exit_code r ≠ 0%Z →
   tools.exit_code r = 1%Z ∧ tools.stdout (snd r) = tools.stdout w) ∧
  tools.files (snd r) = tools.files w.
Proof.
  simpl.
  destruct (decide (length argv = 3%nat)) as [Hlen|Hlen]; cycle 1.
  { assert (tools.sign argv w =
            (cli.SystemExit 1,
             tools.World (tools.files w) (tools.stdout w)
               (tools.stderr w
                  ++ ["Usage: sign.py <message> <private_key_file>"%string])))
      as ->.
    { io_unfold. destruct (length argv =? 3)%nat eqn:E; [|done].
      by apply Nat.eqb_eq in E. }
    unfold tools.exit_code. simpl. split; [|done]. split; [done|].
    intros (prog & m & f & ? & ? & ? & -> & _). by destruct Hlen. }
  destruct argv as [|prog [|m [|f [|? ?]]]]; try done.
  rewrite sign_steps. unfold tools.exit_code.
  destruct (tools.encode m) as [e|msg] eqn:Hm; simpl.
  { split; [|done]. split; [done|].
    intros (? & ? & ? & ? & ? & ? & [= <- <- <-] & ? & _). congruence. }
  destruct (tools.files w !! f) as [sk|] eqn:Hf; simpl; cycle 1.
  { split; [|done]. split; [done|].
    intros (? & ? & ? & ? & ? & ? & [= <- <- <-] & _ & ? & _). congruence. }
  destruct (tools.ml_dsa_sign sk msg) as [e|sig] eqn:Hs; simpl.
  { split; [|done]. split; [done|].
    intros (? & ? & ? & ? & ? & ? & [= <- <- <-] & ? & ? & ? & _). congruence. }
  split; [|done]. split; [|done]. intros _.
  by exists prog, m, f, msg, sk, sig.
Qed.
